(** * A shallow embedding of the scan / checkpoint / process pipeline of
    addwikigeolocation ([src/scanner.py], [src/processor.py],
    [src/commons_client.py]).

    Conventions of the model:
    - Python values that travel through [to_dict] / [from_dict] and through
      the JSON checkpoint are the inductive [pyval];
    - Python floats are Rocq's primitive binary64 floats;
    - wall-clock time is an integer number of milliseconds ([Z]);
    - the external collaborators (the MediaWiki API, the EXIF codec, the
      network, the random number generator, the file system) are inputs of
      the model, chosen by an environment record. *)

From Stdlib Require Import String Ascii List ZArith Bool Floats Lia Permutation.
Set Warnings "-register-all".
Import ListNotations.
Open Scope string_scope.
Open Scope list_scope.

(* ------------------------------------------------------------------ *)
(** ** Python values *)

Inductive pyval : Type :=
| PNone
| PBool (b : bool)
| PStr (s : string)
| PFloat (f : float)
| PList (l : list pyval)
| PDict (d : list (string * pyval)).

(** [dict.get(key)]: the first binding of [key]. *)
Fixpoint dget (d : list (string * pyval)) (k : string) : option pyval :=
  match d with
  | [] => None
  | (k', v) :: d' => if String.eqb k k' then Some v else dget d' k
  end.

(** [dict.get(key, default)] *)
Definition dget_default (d : list (string * pyval)) (k : string) (dflt : pyval) : pyval :=
  match dget d k with Some v => v | None => dflt end.

(** Python truthiness of a value. *)
Definition truthy (v : pyval) : bool :=
  match v with
  | PNone => false
  | PBool b => b
  | PStr s => negb (String.eqb s "")
  | PFloat f => negb (PrimFloat.eqb f 0%float)
  | PList l => match l with [] => false | _ => true end
  | PDict d => match d with [] => false | _ => true end
  end.

Fixpoint mapM {A B} (f : A -> option B) (l : list A) : option (list B) :=
  match l with
  | [] => Some []
  | x :: l' =>
      match f x with
      | Some y => match mapM f l' with Some ys => Some (y :: ys) | None => None end
      | None => None
      end
  end.

(** Reading a dataclass field back from a [pyval]: [None] when the value is
    outside the field's annotated type (Python would store it unchecked,
    outside this typed model). *)
Definition as_str (v : pyval) : option string :=
  match v with PStr s => Some s | _ => None end.
Definition as_bool (v : pyval) : option bool :=
  match v with PBool b => Some b | _ => None end.
Definition as_opt_float (v : pyval) : option (option float) :=
  match v with PNone => Some None | PFloat f => Some (Some f) | _ => None end.
Definition as_opt_str (v : pyval) : option (option string) :=
  match v with PNone => Some None | PStr s => Some (Some s) | _ => None end.

Definition opt_float_val (o : option float) : pyval :=
  match o with Some f => PFloat f | None => PNone end.
Definition opt_str_val (o : option string) : pyval :=
  match o with Some s => PStr s | None => PNone end.

(* ------------------------------------------------------------------ *)
(** ** [UploadInfo] (commons_client.py, lines 66-91) *)

Record UploadInfo : Type := mkUploadInfo {
  title : string;
  has_coords : bool;
  has_exif_gps : bool;
  lat : option float;
  lon : option float;
  url : option string;
  author : option string
}.

(** [UploadInfo.to_dict] is [dataclasses.asdict]: the fields in declaration
    order. *)
Definition UploadInfo_to_dict (u : UploadInfo) : pyval :=
  PDict [("title", PStr (title u));
         ("has_coords", PBool (has_coords u));
         ("has_exif_gps", PBool (has_exif_gps u));
         ("lat", opt_float_val (lat u));
         ("lon", opt_float_val (lon u));
         ("url", opt_str_val (url u));
         ("author", opt_str_val (author u))].

(** [UploadInfo.from_dict]: a bare string is a title with both flags false;
    a dict is read field by field with the defaults of the source; any
    other value has no [.get] and raises [AttributeError] ([None] here). *)
Definition UploadInfo_from_dict (data : pyval) : option UploadInfo :=
  match data with
  | PStr s => Some (mkUploadInfo s false false None None None None)
  | PDict d =>
      match as_str (dget_default d "title" (PStr "")),
            as_bool (dget_default d "has_coords" (PBool false)),
            as_bool (dget_default d "has_exif_gps" (PBool false)),
            as_opt_float (dget_default d "lat" PNone),
            as_opt_float (dget_default d "lon" PNone),
            as_opt_str (dget_default d "url" PNone),
            as_opt_str (dget_default d "author" PNone) with
      | Some t, Some hc, Some hg, Some la, Some lo, Some ur, Some au =>
          Some (mkUploadInfo t hc hg la lo ur au)
      | _, _, _, _, _, _, _ => None
      end
  | _ => None
  end.

(* ------------------------------------------------------------------ *)
(** ** [ScanState] (scanner.py, lines 18-40) *)

(** A MediaWiki continuation dict, e.g. [{"lecontinue": ..., "continue": ...}]. *)
Definition cont_dict := list (string * pyval).

Record ScanState : Type := mkScanState {
  needs_exif : list UploadInfo;
  needs_template : list string;
  scan_continue : option cont_dict
}.

Definition empty_state : ScanState := mkScanState [] [] None.

Definition ScanState_to_dict (s : ScanState) : pyval :=
  PDict [("needs_exif", PList (map UploadInfo_to_dict (needs_exif s)));
         ("needs_template", PList (map PStr (needs_template s)));
         ("scan_continue",
           match scan_continue s with Some d => PDict d | None => PNone end)].

(** [ScanState.from_dict]: a falsy argument gives the empty state; a dict is
    read with the defaults of the source ([[]], [[]], [None]); a truthy
    non-dict raises [AttributeError] ([None] here). *)
Definition ScanState_from_dict (data : pyval) : option ScanState :=
  if negb (truthy data) then Some empty_state else
  match data with
  | PDict d =>
      let ne := match dget_default d "needs_exif" (PList []) with
                | PList l => mapM UploadInfo_from_dict l
                | _ => None
                end in
      let nt := match dget_default d "needs_template" (PList []) with
                | PList l => mapM as_str l
                | _ => None
                end in
      let sc := match dget d "scan_continue" with
                | None | Some PNone => Some None
                | Some (PDict c) => Some (Some c)
                | Some _ => None
                end in
      match ne, nt, sc with
      | Some ne, Some nt, Some sc => Some (mkScanState ne nt sc)
      | _, _, _ => None
      end
  | _ => None
  end.

(** The defaults [UploadInfo.from_dict] passes to [data.get] (commons_client.py,
    lines 84-90: [""], [False], [False], then [None] for the four optional
    fields). *)
Definition UploadInfo_defaults : list (string * pyval) :=
  [("title", PStr ""); ("has_coords", PBool false); ("has_exif_gps", PBool false);
   ("lat", PNone); ("lon", PNone); ("url", PNone); ("author", PNone)].

(** The defaults [ScanState.from_dict] reads for missing keys
    (scanner.py, lines 36-39: [[]], [[]], [None]). *)
Definition ScanState_defaults : list (string * pyval) :=
  [("needs_exif", PList []); ("needs_template", PList []); ("scan_continue", PNone)].

(* ------------------------------------------------------------------ *)
(** ** String helpers used by the scanner *)

Definition lower_ascii (c : ascii) : ascii :=
  let n := nat_of_ascii c in
  if (65 <=? n)%nat && (n <=? 90)%nat then ascii_of_nat (n + 32)%nat else c.

(** [str.lower()], on the ASCII letters. *)
Fixpoint lower (s : string) : string :=
  match s with
  | EmptyString => EmptyString
  | String c s' => String (lower_ascii c) (lower s')
  end.

(** [s.endswith(suf)] *)
Definition endswith (s suf : string) : bool :=
  (String.length suf <=? String.length s)%nat &&
  String.eqb (substring (String.length s - String.length suf) (String.length suf) s) suf.

(** [needle in hay] *)
Fixpoint contains (needle hay : string) : bool :=
  String.prefix needle hay ||
  match hay with
  | EmptyString => false
  | String _ hay' => contains needle hay'
  end.

Definition mem (t : string) (l : list string) : bool := existsb (String.eqb t) l.

(** [CommonsClient._strip_file_prefix] *)
Definition strip_file_prefix (t : string) : string :=
  if String.prefix "File:" t then substring 5 (String.length t - 5) t else t.

(** [s.replace(pat, rep, 1)] *)
Definition replace_first (pat rep s : string) : string :=
  match String.index 0 pat s with
  | Some i => substring 0 i s ++ rep ++
              substring (i + String.length pat) (String.length s - (i + String.length pat)) s
  | None => s
  end.

(** [title.lower().endswith((".jpg", ".jpeg"))] *)
Definition is_jpeg_title (t : string) : bool :=
  endswith (lower t) ".jpg" || endswith (lower t) ".jpeg".

(** The slices [l[i : i + n]] for [i] in [range(0, len(l), n)]. *)
Fixpoint chunks_fuel (fuel n : nat) {A} (l : list A) : list (list A) :=
  match fuel with
  | O => []
  | S f => match l with
           | [] => []
           | _ => firstn n l :: chunks_fuel f n (skipn n l)
           end
  end.
Definition chunks {A} (n : nat) (l : list A) : list (list A) := chunks_fuel (length l) n l.

(** [dict.update(other)]: existing keys are overwritten in place, new keys
    appended. *)
Fixpoint dset (d : list (string * pyval)) (k : string) (v : pyval) : list (string * pyval) :=
  match d with
  | [] => [(k, v)]
  | (k', v') :: d' => if String.eqb k k' then (k, v) :: d' else (k', v') :: dset d' k v
  end.
Definition dupdate (d other : list (string * pyval)) : list (string * pyval) :=
  fold_left (fun acc kv => dset acc (fst kv) (snd kv)) other d.

(** Truthiness of an [Optional[dict]] continuation token. *)
Definition cont_truthy (c : option cont_dict) : bool :=
  match c with None => false | Some [] => false | Some _ => true end.

(** Truthiness of an [Optional[str]]. *)
Definition opt_str_truthy (o : option string) : bool :=
  match o with None => false | Some s => negb (String.eqb s "") end.

(* ------------------------------------------------------------------ *)
(** ** Observable effects and a trace monad *)

Inductive Event : Type :=
| EApiLog (params : list (string * pyval))    (* site.api(list=logevents, ...) *)
| EApiCat (params : list (string * pyval))    (* site.api(list=categorymembers, ...) *)
| EApiPages (titles : list string)            (* site.api(prop=imageinfo|coordinates, ...) *)
| ESave (s : ScanState)                       (* save_state(state_path, state) *)
| ESleep (ms : Z)                             (* time.sleep *)
| EUpload (at_ms : Z) (t : string).           (* client.upload_file: the remote mutation *)

(** A computation emits a trace; [None] as result means the loop did not
    finish within the given fuel (the API kept returning continuations). *)
Definition M (A : Type) : Type := (list Event * option A)%type.

Definition ret {A} (a : A) : M A := ([], Some a).
Definition bind {A B} (m : M A) (k : A -> M B) : M B :=
  match m with
  | (t1, None) => (t1, None)
  | (t1, Some a) => let (t2, r) := k a in (t1 ++ t2, r)
  end.
Definition emit (e : Event) : M unit := ([e], Some tt).
Definition stuck {A} : M A := ([], None).

Notation "x <- m ;; k" := (bind m (fun x => k)) (at level 61, m at next level, right associativity).
Notation "m ;;; k" := (bind m (fun _ => k)) (at level 61, right associativity).

(* ------------------------------------------------------------------ *)
(** ** The MediaWiki API as seen by [CommonsClient] *)

(** One entry of [query.pages] of a [prop=imageinfo|coordinates] call, with
    the EXIF-metadata test ([_has_metadata_gps]) and the author lookup in
    [extmetadata] already applied. *)
Record Page : Type := mkPage {
  pg_title : string;
  pg_coordinates : option (list (option float * option float));
  pg_metadata_gps : bool;
  pg_url : option string;
  pg_author : option string
}.

(** [query.logevents] (the [title] of each event) and the [continue] dict. *)
Record LogResponse : Type := mkLogResponse {
  lr_titles : list (option string);
  lr_continue : option cont_dict
}.

Record CatMember : Type := mkCatMember { cm_title : string; cm_ns : Z }.
Record CatResponse : Type := mkCatResponse {
  cr_members : list CatMember;
  cr_continue : option cont_dict
}.

(** The remote site: each [site.api] answer as a function of the
    request ([None] when the answer lacks the expected [query] part). *)
Record Api : Type := mkApi {
  api_log : list (string * pyval) -> option LogResponse;
  api_cat : list (string * pyval) -> option CatResponse;
  api_pages : list string -> list Page
}.

Section Client.
Variable api : Api.

(** [CommonsClient._fetch_pages_batch] *)
Definition page_to_upload (p : Page) : UploadInfo :=
  let coords := pg_coordinates p in
  let first := match coords with Some (c :: _) => Some c | _ => None end in
  mkUploadInfo (strip_file_prefix (pg_title p))
               (match coords with Some _ => true | None => false end)
               (pg_metadata_gps p)
               (match first with Some (la, _) => la | None => None end)
               (match first with Some (_, lo) => lo | None => None end)
               (pg_url p) (pg_author p).

Definition fetch_pages_batch (batch : list string) : M (list UploadInfo) :=
  emit (EApiPages batch) ;;; ret (map page_to_upload (api_pages api batch)).

Fixpoint fetch_batches (bs : list (list string)) : M (list UploadInfo) :=
  match bs with
  | [] => ret []
  | b :: bs' => r <- fetch_pages_batch b ;; rs <- fetch_batches bs' ;; ret (r ++ rs)
  end.

Definition log_base_params (username : string) : list (string * pyval) :=
  [("action", PStr "query"); ("list", PStr "logevents"); ("letype", PStr "upload");
   ("leuser", PStr username); ("leprop", PStr "title"); ("lelimit", PStr "max")].

(** [ev.get("title")] for the events that have a (truthy) title. *)
Definition event_titles (evs : list (option string)) : list string :=
  flat_map (fun o => if opt_str_truthy o then match o with Some t => [t] | None => [] end else []) evs.

(** The [while True] loop of [CommonsClient.list_uploads]; one unit of fuel
    per API call. *)
Fixpoint list_uploads_loop (fuel : nat) (params : list (string * pyval))
         (seen : list string) (results : list UploadInfo)
  : M (list UploadInfo * option cont_dict) :=
  match fuel with
  | O => stuck
  | S f =>
      emit (EApiLog params) ;;;
      match api_log api params with
      | None => ret (results, None)
      | Some data =>
          let titles := event_titles (lr_titles data) in
          let new_titles := filter (fun t => negb (mem t seen)) titles in
          let seen' := seen ++ new_titles in
          batch_results <- fetch_batches (chunks 50 new_titles) ;;
          let results' := results ++ batch_results in
          match lr_continue data with
          | None => ret (results', None)
          | Some c => list_uploads_loop f (dupdate params c) seen' results'
          end
      end
  end.

(** [CommonsClient.list_uploads(username, cont_token, seen_titles)] *)
Definition list_uploads (fuel : nat) (username : string) (cont_token : option cont_dict)
           (seen_titles : list string) : M (list UploadInfo * option cont_dict) :=
  let params := match cont_token with
                | Some c => if cont_truthy cont_token then dupdate (log_base_params username) c
                            else log_base_params username
                | None => log_base_params username
                end in
  list_uploads_loop fuel params seen_titles [].

Definition cat_params (cat : string) (cont_token : option cont_dict) : list (string * pyval) :=
  let base := [("action", PStr "query"); ("list", PStr "categorymembers");
               ("cmtitle", PStr ("Category:" ++ cat)); ("cmtype", PStr "file|subcat");
               ("cmlimit", PStr "max")] in
  match cont_token with
  | Some c => if cont_truthy cont_token then dupdate base c else base
  | None => base
  end.

(** The member loop of one category page: subcategories to enqueue, new file
    titles, and the updated [seen] set. *)
Fixpoint split_members (depth max_depth : Z) (ms : list CatMember)
         (seen : list string) (subcats titles : list string)
  : list string * list string * list string :=
  match ms with
  | [] => (subcats, titles, seen)
  | m :: ms' =>
      if (cm_ns m =? 14)%Z && (depth <? max_depth)%Z then
        split_members depth max_depth ms' seen
                      (subcats ++ [replace_first "Category:" "" (cm_title m)]) titles
      else if (cm_ns m =? 6)%Z && negb (mem (cm_title m) seen) then
        split_members depth max_depth ms' (seen ++ [cm_title m]) subcats
                      (titles ++ [cm_title m])
      else split_members depth max_depth ms' seen subcats titles
  end.

(** [CommonsClient.list_category_files]: breadth-first over [(cat, depth)];
    one unit of fuel per API call. *)
Fixpoint list_cat_loop (fuel : nat) (max_depth : Z) (queue : list (string * Z))
         (cur : option (string * Z * option cont_dict))
         (seen : list string) (results : list UploadInfo) : M (list UploadInfo) :=
  match fuel with
  | O => stuck
  | S f =>
      match cur with
      | None =>
          match queue with
          | [] => ret results
          | (cat, depth) :: queue' =>
              list_cat_loop f max_depth queue' (Some (cat, depth, None)) seen results
          end
      | Some (cat, depth, cont_token) =>
          let params := cat_params cat cont_token in
          emit (EApiCat params) ;;;
          match api_cat api params with
          | None => list_cat_loop f max_depth queue None seen results
          | Some data =>
              let '(subcats, titles, seen') :=
                split_members depth max_depth (cr_members data) seen [] [] in
              rs <- fetch_batches (chunks 50 titles) ;;
              let queue' := queue ++ map (fun sc => (sc, (depth + 1)%Z)) subcats in
              match cr_continue data with
              | None => list_cat_loop f max_depth queue' None seen' (results ++ rs)
              | Some c => list_cat_loop f max_depth queue' (Some (cat, depth, Some c))
                                        seen' (results ++ rs)
              end
          end
      end
  end.

Definition list_category_files (fuel : nat) (category : string) (max_depth : Z)
           (seen_titles : list string) : M (list UploadInfo) :=
  list_cat_loop fuel max_depth [(category, 0%Z)] None seen_titles [].

End Client.

(* ------------------------------------------------------------------ *)
(** ** [scan_user_uploads] (scanner.py, lines 70-118) *)

Definition set_needs_exif (s : ScanState) (l : list UploadInfo) : ScanState :=
  mkScanState l (needs_template s) (scan_continue s).
Definition set_needs_template (s : ScanState) (l : list string) : ScanState :=
  mkScanState (needs_exif s) l (scan_continue s).
Definition set_scan_continue (s : ScanState) (c : option cont_dict) : ScanState :=
  mkScanState (needs_exif s) (needs_template s) c.

(** The two [continue] guards of the routing loop (lines 96-99). *)
Definition passes_filters (author_filter : option string) (u : UploadInfo) : bool :=
  is_jpeg_title (title u) &&
  negb (opt_str_truthy author_filter && opt_str_truthy (author u) &&
        negb (contains (lower (match author_filter with Some a => a | None => "" end))
                       (lower (match author u with Some a => a | None => "" end)))).

(** One iteration of [for upload in uploads] (lines 95-104); the state and
    the scanner's [seen_titles] are threaded through. *)
Definition route (author_filter : option string) (acc : ScanState * list string)
           (u : UploadInfo) : ScanState * list string :=
  let (st, seen) := acc in
  if negb (is_jpeg_title (title u)) then (st, seen)
  else if opt_str_truthy author_filter && opt_str_truthy (author u) &&
          negb (contains (lower (match author_filter with Some a => a | None => "" end))
                         (lower (match author u with Some a => a | None => "" end)))
  then (st, seen)
  else
    let st' := if has_coords u && negb (has_exif_gps u)
               then set_needs_exif st (needs_exif st ++ [u])
               else if has_exif_gps u && negb (has_coords u)
               then set_needs_template st (needs_template st ++ [title u])
               else st in
    (st', seen ++ [title u]).

Section Scanner.
Variable api : Api.
Variables (target_user : string) (category : option string) (max_depth : Z)
          (author_filter : option string).

(** The [while True] crawl loop (lines 88-109). *)
Fixpoint scan_loop (fuel : nat) (state : ScanState) (seen : list string)
         (cont : option cont_dict) : M ScanState :=
  match fuel with
  | O => stuck
  | S f =>
      page <- (if opt_str_truthy category
               then ups <- list_category_files api f
                             (match category with Some c => c | None => "" end)
                             max_depth seen ;;
                    ret (ups, None)
               else list_uploads api f target_user cont seen) ;;
      let (uploads, cont') := page in
      let (st2, seen2) := fold_left (route author_filter) uploads (state, seen) in
      let st3 := set_scan_continue st2 cont' in
      emit (ESave st3) ;;;
      if negb (cont_truthy cont') || match uploads with [] => true | _ => false end
      then ret st3
      else emit (ESleep 1000) ;;; scan_loop f st3 seen2 cont'
  end.

Definition scan_user_uploads (fuel : nat) (state : ScanState) : M ScanState :=
  let seen := map title (needs_exif state) ++ needs_template state in
  let cont := scan_continue state in
  let state1 := set_needs_exif state (filter has_coords (needs_exif state)) in
  if match needs_exif state1 with [] => false | _ => true end &&
     match needs_template state1 with [] => false | _ => true end &&
     negb (cont_truthy cont)
  then ret state1
  else scan_loop fuel state1 seen cont.

End Scanner.

(* ------------------------------------------------------------------ *)
(** ** [process_needs_exif] and [rate_limit_sleep] (processor.py) *)

(** Python [==] on floats, with the identity shortcut of [list.remove]
    (an item always equals itself, NaN included). *)
Definition float_py_eq (f g : float) : bool :=
  PrimFloat.eqb f g || (PrimFloat.is_nan f && PrimFloat.is_nan g).

Definition opt_eqb {A} (eq : A -> A -> bool) (x y : option A) : bool :=
  match x, y with
  | Some a, Some b => eq a b
  | None, None => true
  | _, _ => false
  end.

(** The dataclass [__eq__] of [UploadInfo]: field by field. *)
Definition upload_eqb (u v : UploadInfo) : bool :=
  String.eqb (title u) (title v) && Bool.eqb (has_coords u) (has_coords v) &&
  Bool.eqb (has_exif_gps u) (has_exif_gps v) &&
  opt_eqb float_py_eq (lat u) (lat v) && opt_eqb float_py_eq (lon u) (lon v) &&
  opt_eqb String.eqb (url u) (url v) && opt_eqb String.eqb (author u) (author v).

(** [list.remove(x)]: drops the first element equal to [x]; [None] is the
    [ValueError] raised when there is none. *)
Fixpoint list_remove (x : UploadInfo) (l : list UploadInfo) : option (list UploadInfo) :=
  match l with
  | [] => None
  | y :: l' => if upload_eqb y x then Some l'
               else match list_remove x l' with Some r => Some (y :: r) | None => None end
  end.

(** [if upload_info in state.needs_exif: state.needs_exif.remove(upload_info)] *)
Definition remove_if_in (x : UploadInfo) (l : list UploadInfo) : list UploadInfo :=
  match list_remove x l with Some r => r | None => l end.

(** [valid_coordinates] (commons_client.py, line 62) *)
Definition valid_coordinates (la lo : option float) : bool :=
  match la, lo with
  | Some a, Some o =>
      PrimFloat.leb (-90) a && PrimFloat.leb a 90 &&
      PrimFloat.leb (-180) o && PrimFloat.leb o 180
  | _, _ => false
  end.

(** What [client.download_file] does: a local path, [None] (no URL,
    non-JPEG content type, a [RequestException]), or an exception it does
    not catch (an [OSError] while writing the local file, ...). *)
Inductive DlOutcome : Type := DlPath | DlNone | DlRaise.

(** The environment of one iteration of the loop. *)
Record ItemEnv : Type := mkItemEnv {
  e_download : DlOutcome;
  e_exif_ok : bool;       (* set_gps_location returns normally *)
  e_upload_ok : bool;     (* site.upload returns normally *)
  e_work_ms : Z;          (* time from the start of the iteration to the upload call *)
  e_after_ms : Z;         (* time from the upload call to the end of the iteration *)
  e_jitter_ms : Z         (* the draw of random.uniform(base_sleep*0.5, base_sleep*1.5) *)
}.

Record PState : Type := mkPState {
  ps_state : ScanState;
  ps_updated : nat;
  ps_skipped_has_gps : nat;
  ps_skipped_no_gps : nat;
  ps_errors : nat;
  ps_edits_count : Z;
  ps_timestamps : list Z;
  ps_clock : Z
}.

Inductive ProcOutcome : Type :=
| Finished (ps : PState)
| Raised (ps : PState).   (* an exception escaped the loop (IndexError in rate_limit_sleep) *)

Definition with_needs (ps : PState) (l : list UploadInfo) : PState :=
  mkPState (set_needs_exif (ps_state ps) l) (ps_updated ps) (ps_skipped_has_gps ps)
           (ps_skipped_no_gps ps) (ps_errors ps) (ps_edits_count ps) (ps_timestamps ps) (ps_clock ps).
Definition incr_updated (ps : PState) : PState :=
  mkPState (ps_state ps) (S (ps_updated ps)) (ps_skipped_has_gps ps) (ps_skipped_no_gps ps)
           (ps_errors ps) (ps_edits_count ps - 1) (ps_timestamps ps) (ps_clock ps).
Definition incr_skipped_has_gps (ps : PState) : PState :=
  mkPState (ps_state ps) (ps_updated ps) (S (ps_skipped_has_gps ps)) (ps_skipped_no_gps ps)
           (ps_errors ps) (ps_edits_count ps) (ps_timestamps ps) (ps_clock ps).
Definition incr_skipped_no_gps (ps : PState) : PState :=
  mkPState (ps_state ps) (ps_updated ps) (ps_skipped_has_gps ps) (S (ps_skipped_no_gps ps))
           (ps_errors ps) (ps_edits_count ps) (ps_timestamps ps) (ps_clock ps).
Definition incr_errors (ps : PState) : PState :=
  mkPState (ps_state ps) (ps_updated ps) (ps_skipped_has_gps ps) (ps_skipped_no_gps ps)
           (S (ps_errors ps)) (ps_edits_count ps) (ps_timestamps ps) (ps_clock ps).
Definition advance (ps : PState) (ms : Z) : PState :=
  mkPState (ps_state ps) (ps_updated ps) (ps_skipped_has_gps ps) (ps_skipped_no_gps ps)
           (ps_errors ps) (ps_edits_count ps) (ps_timestamps ps) (ps_clock ps + ms).
Definition with_timestamps (ps : PState) (ts : list Z) : PState :=
  mkPState (ps_state ps) (ps_updated ps) (ps_skipped_has_gps ps) (ps_skipped_no_gps ps)
           (ps_errors ps) (ps_edits_count ps) ts (ps_clock ps).

(** [rate_limit_sleep(edit_timestamps, max_edits_per_min, base_sleep)]; the
    jitter draw comes from the environment.  [None] is the [IndexError] of
    [edit_timestamps[0]] on an empty window. *)
Definition rate_limit_sleep (max_edits_per_min : Z) (jitter : Z) (ps : PState)
  : M (option PState) :=
  let now := ps_clock ps in
  let ts := filter (fun t => now - t <? 60000)%Z (ps_timestamps ps) in
  r <- (if (max_edits_per_min <=? Z.of_nat (length ts))%Z then
          match ts with
          | [] => ret None
          | t0 :: _ => let sl := Z.max (60000 - (now - t0)) 1000 in
                       emit (ESleep sl) ;;; ret (Some (now + sl)%Z)
          end
        else ret (Some now)) ;;
  match r with
  | None => ret None
  | Some t => emit (ESleep jitter) ;;;
              ret (Some (advance (with_timestamps (advance ps (t - now)) (ts ++ [t])) jitter))
  end.

(** Tail of an iteration that was not a [continue]: [progress.update],
    the budget test, then the rate limiter. *)
Definition after_item (max_edits_per_min : Z) (env : ItemEnv) (ps : PState)
  : M (option (option PState)) :=
  if (ps_edits_count ps =? 0)%Z then ret (Some None)   (* break *)
  else r <- rate_limit_sleep max_edits_per_min (e_jitter_ms env) ps ;;
       match r with
       | None => ret None                                (* exception escapes *)
       | Some ps' => ret (Some (Some ps'))               (* next item *)
       end.

Inductive Step : Type :=
| SNext (ps : PState)
| SBreak (ps : PState)
| SRaise (ps : PState).

Definition finish_item (max_edits_per_min : Z) (env : ItemEnv) (ps : PState) : M Step :=
  r <- after_item max_edits_per_min env ps ;;
  match r with
  | Some None => ret (SBreak ps)
  | Some (Some ps') => ret (SNext ps')
  | None => ret (SRaise ps)
  end.

Definition save (ps : PState) : M unit := emit (ESave (ps_state ps)).

Section Processor.
Variables (max_edits_per_min : Z) (upload : bool) (env : nat -> ItemEnv).

(** One pass of the body of [for idx, upload_info in enumerate(images, 1)]
    (processor.py, lines 53-94). *)
Definition process_item (idx : nat) (u : UploadInfo) (ps : PState) : M Step :=
  let e := env idx in
  let skip (ps1 : PState) :=
    match list_remove u (needs_exif (ps_state ps1)) with
    | Some l => let ps2 := with_needs ps1 l in save ps2 ;;; ret (SNext ps2)
    | None => finish_item max_edits_per_min e (incr_errors ps1)
    end in
  if negb (has_coords u) then skip (incr_skipped_no_gps ps)
  else if has_exif_gps u then skip (incr_skipped_has_gps ps)
  else
    let ps1 := advance ps (e_work_ms e) in
    match e_download e with
    | DlRaise => finish_item max_edits_per_min e (incr_errors ps1)
    | DlNone =>
        let ps2 := incr_errors ps1 in
        let ps3 := with_needs ps2 (remove_if_in u (needs_exif (ps_state ps2))) in
        save ps3 ;;; finish_item max_edits_per_min e ps3
    | DlPath =>
        ps2 <- (if negb (valid_coordinates (lat u) (lon u)) then ret (incr_errors ps1)
                else if negb (e_exif_ok e) then ret (incr_errors ps1)
                else if upload then
                  emit (EUpload (ps_clock ps1) (title u)) ;;;
                  let ps1' := advance ps1 (e_after_ms e) in
                  ret (if e_upload_ok e then incr_updated ps1' else incr_errors ps1')
                else ret (incr_updated ps1)) ;;
        let ps3 := with_needs ps2 (remove_if_in u (needs_exif (ps_state ps2))) in
        save ps3 ;;; finish_item max_edits_per_min e ps3
    end.

Fixpoint process_loop (idx : nat) (images : list UploadInfo) (ps : PState) : M ProcOutcome :=
  match images with
  | [] => ret (Finished ps)
  | u :: rest =>
      s <- process_item idx u ps ;;
      match s with
      | SNext ps' => process_loop (S idx) rest ps'
      | SBreak ps' => ret (Finished ps')
      | SRaise ps' => ret (Raised ps')
      end
  end.

(** [process_needs_exif]; [images] is the order produced by
    [random.shuffle(list(state.needs_exif))] and [clock0] the time at
    entry. *)
Definition process_needs_exif (state : ScanState) (count : Z) (images : list UploadInfo)
           (clock0 : Z) : M ProcOutcome :=
  process_loop 1 images (mkPState state 0 0 0 0 count [] clock0).

End Processor.

(** The environment draws the jitter of [random.uniform(base_sleep * 0.5,
    base_sleep * 1.5)] inside its range. *)
Definition jitter_in_range (base_sleep_ms : Z) (e : ItemEnv) : Prop :=
  (base_sleep_ms <= 2 * e_jitter_ms e <= 3 * base_sleep_ms)%Z.

(** Mutation actions (uploads) issued in the window [[s, s + 60 s)]. *)
Definition uploads_in_window (s : Z) (tr : list Event) : nat :=
  length (filter (fun ev => match ev with
                            | EUpload t _ => (s <=? t)%Z && (t <? s + 60000)%Z
                            | _ => false
                            end) tr).

(* ------------------------------------------------------------------ *)
(** ** [save_state] (scanner.py, lines 56-67) over a file-system model *)

(** A path as [path.parent] and [path.name]. *)
Record FPath : Type := mkFPath { p_dir : string; p_name : string }.

Definition path_eqb (p q : FPath) : bool :=
  String.eqb (p_dir p) (p_dir q) && String.eqb (p_name p) (p_name q).

(** A file: what [read] returns now ([f_vol], the page cache) and what
    survives a power loss ([f_dur], stable storage). *)
Record FileC : Type := mkFileC { f_vol : string; f_dur : string }.

(** The directory entries, and the buffer of the open Python file object. *)
Record World : Type := mkWorld {
  w_files : list (FPath * FileC);
  w_buf : string
}.

Fixpoint flookup (fs : list (FPath * FileC)) (p : FPath) : option FileC :=
  match fs with
  | [] => None
  | (q, f) :: fs' => if path_eqb p q then Some f else flookup fs' p
  end.

Fixpoint fdelete (fs : list (FPath * FileC)) (p : FPath) : list (FPath * FileC) :=
  match fs with
  | [] => []
  | (q, f) :: fs' => if path_eqb p q then fdelete fs' p else (q, f) :: fdelete fs' p
  end.

Definition fset (fs : list (FPath * FileC)) (p : FPath) (f : FileC) : list (FPath * FileC) :=
  (p, f) :: fdelete fs p.

Inductive FsOp : Type :=
| OCreate (p : FPath)            (* os.open(O_CREAT | O_EXCL) of NamedTemporaryFile *)
| OWrite (chunk : string)        (* tmp.write, into the Python buffer *)
| OFlush (p : FPath)             (* tmp.flush(): the buffer goes to the OS *)
| OFsync (p : FPath)             (* os.fsync(tmp.fileno()) *)
| OReplace (src dst : FPath)     (* os.replace(tmp.name, path): one atomic rename *)
| OClose (p : FPath).            (* tmp.close(): flushes what is left in the buffer *)

Definition flush_to (w : World) (p : FPath) : World :=
  match flookup (w_files w) p with
  | Some f => mkWorld (fset (w_files w) p (mkFileC (f_vol f ++ w_buf w) (f_dur f))) ""
  | None => w
  end.

Definition run_op (w : World) (op : FsOp) : World :=
  match op with
  | OCreate p => mkWorld (fset (w_files w) p (mkFileC "" "")) ""
  | OWrite c => mkWorld (w_files w) (w_buf w ++ c)
  | OFlush p => flush_to w p
  | OFsync p =>
      match flookup (w_files w) p with
      | Some f => mkWorld (fset (w_files w) p (mkFileC (f_vol f) (f_vol f))) (w_buf w)
      | None => w
      end
  | OReplace s d =>
      match flookup (w_files w) s with
      | Some f => mkWorld (fset (fdelete (w_files w) s) d f) (w_buf w)
      | None => w
      end
  | OClose p => flush_to w p
  end.

Definition run_ops (w : World) (ops : list FsOp) : World := fold_left run_op ops w.

(** [NamedTemporaryFile(dir=path.parent)]: the first random candidate name
    that does not exist yet in the directory ([O_EXCL] retries); [None] is
    the [FileExistsError] once the candidates are exhausted. *)
Fixpoint choose_tmp (fs : list (FPath * FileC)) (dir : string) (cands : list string)
  : option FPath :=
  match cands with
  | [] => None
  | n :: cs => match flookup fs (mkFPath dir n) with
               | None => Some (mkFPath dir n)
               | Some _ => choose_tmp fs dir cs
               end
  end.

Section SaveState.
(** [json.dump(state.to_dict(), tmp, indent=2)] writes the chunks of
    [JSONEncoder.iterencode] one by one. *)
Variable encode : ScanState -> list string.

(** The operations of [save_state(path, state)] on the world [w].
    [fail = Some k]: the [k]-th operation of the [try] block raises (disk
    full, ...), the rest of the block is skipped, and [finally] closes the
    file.  Every prefix of the returned list is a moment a reader (or a
    crash) may observe. *)
Definition save_state_ops (w : World) (cands : list string) (path : FPath)
           (state : ScanState) (fail : option nat) : list FsOp :=
  match choose_tmp (w_files w) (p_dir path) cands with
  | None => []
  | Some tmp =>
      let body := map OWrite (encode state) ++ [OFlush tmp; OFsync tmp; OReplace tmp path] in
      OCreate tmp ::
      (match fail with None => body | Some k => firstn k body end) ++ [OClose tmp]
  end.

End SaveState.

(** What a reader of [path] sees, and what is left of it after a power loss. *)
Definition read_now (w : World) (p : FPath) : option string :=
  option_map f_vol (flookup (w_files w) p).
Definition read_after_crash (w : World) (p : FPath) : option string :=
  option_map f_dur (flookup (w_files w) p).

(* ------------------------------------------------------------------ *)
(** ** [load_state] (scanner.py, lines 43-53) *)

(** The bytes of a file. *)
Fixpoint bytes_of (s : string) : list nat :=
  match s with
  | EmptyString => []
  | String c s' => nat_of_ascii c :: bytes_of s'
  end.

Definition in_range (lo hi b : nat) : bool := (lo <=? b)%nat && (b <=? hi)%nat.
Definition cont_byte (b : nat) : bool := in_range 128 191 b.

(** The strict [utf-8] codec used by [path.open()] in text mode (Unicode
    Table 3-7: no overlong forms, no surrogates, nothing above U+10FFFF);
    [None] is the [UnicodeDecodeError]. *)
Fixpoint utf8_decode (l : list nat) : option (list Z) :=
  match l with
  | [] => Some []
  | b1 :: r1 =>
      let tail (cp : Z) (rest : list nat) :=
        match utf8_decode rest with Some cps => Some (cp :: cps) | None => None end in
      if (b1 <? 128)%nat then tail (Z.of_nat b1) r1
      else if in_range 194 223 b1 then
        match r1 with
        | b2 :: r2 => if cont_byte b2
                      then tail (Z.of_nat ((b1 - 192) * 64 + (b2 - 128))) r2 else None
        | [] => None
        end
      else if in_range 224 239 b1 then
        match r1 with
        | b2 :: b3 :: r3 =>
            let lo2 := if (b1 =? 224)%nat then 160 else 128 in
            let hi2 := if (b1 =? 237)%nat then 159 else 191 in
            if in_range lo2 hi2 b2 && cont_byte b3
            then tail (Z.of_nat ((b1 - 224) * 4096 + (b2 - 128) * 64 + (b3 - 128))) r3
            else None
        | _ => None
        end
      else if in_range 240 244 b1 then
        match r1 with
        | b2 :: b3 :: b4 :: r4 =>
            let lo2 := if (b1 =? 240)%nat then 144 else 128 in
            let hi2 := if (b1 =? 244)%nat then 143 else 191 in
            if in_range lo2 hi2 b2 && cont_byte b3 && cont_byte b4
            then tail (Z.of_nat (b1 - 240) * 262144 + Z.of_nat (b2 - 128) * 4096
                       + Z.of_nat (b3 - 128) * 64 + Z.of_nat (b4 - 128))%Z r4
            else None
        | _ => None
        end
      else None
  end.

Inductive PyExc : Type := UnicodeDecodeError | AttributeError.

Inductive LoadResult : Type :=
| Loaded (s : ScanState) (w : World) (warned : bool)
| LoadRaised (e : PyExc) (w : World)
| LoadIllTyped (w : World).   (* from_dict built a record outside its annotated types *)

(** [path.with_suffix(path.suffix + f".corrupt.{ts}.bak")]: since the stem
    plus the old suffix is the whole name, this appends to the name. *)
Definition corrupt_backup (path : FPath) (ts : string) : FPath :=
  mkFPath (p_dir path) (p_name path ++ ".corrupt." ++ ts ++ ".bak").

(** [path.rename(target)] *)
Definition rename (w : World) (src dst : FPath) : World := run_op w (OReplace src dst).

Section LoadState.
(** [json.loads] on the decoded text: the parsed value, or [None] for a
    [JSONDecodeError]. *)
Variable json_loads : list Z -> option pyval.

(** [load_state(path)]; [ts] is [datetime.utcnow().strftime("%Y%m%d%H%M%S")]. *)
Definition load_state (w : World) (path : FPath) (ts : string) : LoadResult :=
  match flookup (w_files w) path with
  | None => Loaded empty_state w false
  | Some f =>
      match utf8_decode (bytes_of (f_vol f)) with
      | None => LoadRaised UnicodeDecodeError w
      | Some text =>
          match json_loads text with
          | None => Loaded empty_state (rename w path (corrupt_backup path ts)) true
          | Some v =>
              if truthy v then
                match v with
                | PDict _ => match ScanState_from_dict v with
                             | Some s => Loaded s w false
                             | None => LoadIllTyped w
                             end
                | _ => LoadRaised AttributeError w
                end
              else Loaded empty_state w false
          end
      end
  end.

End LoadState.

(* ------------------------------------------------------------------ *)
(** ** Concrete inputs *)

Definition commons_url (t : string) : string :=
  "https://upload.wikimedia.org/wikipedia/commons/" ++ t.

(** A page of [prop=imageinfo|coordinates] for a requested title: the API
    answers with the normalised title, here with page coordinates and no
    GPS block in the EXIF metadata. *)
Definition page_with_coords (t : string) : Page :=
  mkPage t (Some [(Some 48.5%float, Some 2.25%float)]) false
         (Some (commons_url (strip_file_prefix t))) None.

Definition upload_X : UploadInfo :=
  mkUploadInfo "X.jpg" true false (Some 48.5%float) (Some 2.25%float)
               (Some (commons_url "X.jpg")) None.
Definition upload_Y : UploadInfo :=
  mkUploadInfo "Y.jpg" true false (Some 48.5%float) (Some 2.25%float)
               (Some (commons_url "Y.jpg")) None.

(** The continuation returned with the first page of the upload log. *)
Definition log_cont1 : cont_dict :=
  [("lecontinue", PStr "20240101000000|42"); ("continue", PStr "-||")].

(** An upload log of two pages: [File:X.jpg], then [File:Y.jpg]. *)
Definition api_two_pages : Api :=
  mkApi (fun params => match dget params "lecontinue" with
                       | None => Some (mkLogResponse [Some "File:X.jpg"] (Some log_cont1))
                       | Some _ => Some (mkLogResponse [Some "File:Y.jpg"] None)
                       end)
        (fun _ => None)
        (fun titles => map page_with_coords titles).

(** Every collaborator succeeds; one second of work before and after the
    upload call; a jitter of 10 s (the default [--sleep 10] draws in
    [[5 s, 15 s]]). *)
Definition env_all_ok : nat -> ItemEnv :=
  fun _ => mkItemEnv DlPath true true 1000 1000 10000.

(** [download_file] raises (an [OSError] while writing the local copy). *)
Definition env_download_raises : nat -> ItemEnv :=
  fun _ => mkItemEnv DlRaise true true 1000 1000 10000.

(** A queued upload with page coordinates and no EXIF GPS. *)
Definition upload_named (t : string) : UploadInfo :=
  mkUploadInfo t true false (Some 48.5%float) (Some 2.25%float) (Some (commons_url t)) None.

Definition five_queued : list UploadInfo :=
  map upload_named ["A.jpg"; "B.jpg"; "C.jpg"; "D.jpg"; "E.jpg"].

Definition st_five : ScanState := mkScanState five_queued [] None.

(** A checkpoint of a completed crawl with both queues non-empty. *)
Definition st_both_queued : ScanState := mkScanState [upload_X] ["T.jpg"] None.

(** The chunks [iterencode] yields for a state, here a fixed two-chunk text. *)
Definition dump_two_chunks (st : ScanState) : list string := ["{"; "}"].

(** A directory holding the previous checkpoint. *)
Definition world_old : World :=
  mkWorld [(mkFPath "." "gps_scan.json", mkFileC "[]" "[]")] "".

(* ================================================================== *)
(** ** Observables *)

Definition routes_to_exif (af : option string) (u : UploadInfo) : bool :=
  passes_filters af u && has_coords u && negb (has_exif_gps u).
Definition routes_to_template (af : option string) (u : UploadInfo) : bool :=
  passes_filters af u && has_exif_gps u && negb (has_coords u).

(** The first request of a crawl that starts without a continuation token. *)
Definition first_listing_call (target_user : string) (category : option string) : Event :=
  if opt_str_truthy category
  then EApiCat (cat_params (match category with Some c => c | None => "" end) None)
  else EApiLog (log_base_params target_user).

Definition queued_titles (st : ScanState) : list string :=
  map title (needs_exif st) ++ needs_template st.


(** The budget counter: [edits_count] plus the number of successes. *)
Definition budget (p : PState) : Z := (ps_edits_count p + Z.of_nat (ps_updated p))%Z.

Definition step_state (s : Step) : PState :=
  match s with SNext p | SBreak p | SRaise p => p end.

Definition outcome_state (o : ProcOutcome) : PState :=
  match o with Finished p | Raised p => p end.

Definition state_path : FPath := mkFPath "." "gps_scan.json".

(** A checkpoint file holding the single byte [0xFF]. *)
Definition file_FF : FileC :=
  mkFileC (String (ascii_of_nat 255) EmptyString) (String (ascii_of_nat 255) EmptyString).

(** Whether an operation can change the entry of [p]. *)
Definition touches (p : FPath) (op : FsOp) : bool :=
  match op with
  | OCreate q | OFlush q | OFsync q | OClose q => path_eqb q p
  | OReplace s d => path_eqb s p || path_eqb d p
  | OWrite _ => false
  end.

(** The text a sequence of [json.dump] chunks leaves in the file. *)
Definition serialized (encode : ScanState -> list string) (st : ScanState) : string :=
  fold_left String.append (encode st) "".

(* ================================================================== *)
(** ** [decimal_to_dms], [set_gps_location] ([src/commons_client.py]) *)

(** [int(x)] of a float: truncation toward zero; [None] is the
    [OverflowError] (infinities) or [ValueError] (NaN). *)
Definition py_int (x : float) : option Z :=
  match Prim2SF x with
  | S754_zero _ => Some 0%Z
  | S754_finite s m e =>
      let v := if (0 <=? e)%Z then (Z.pos m * 2 ^ e)%Z else (Z.pos m / 2 ^ (- e))%Z in
      Some (if s then (- v)%Z else v)
  | _ => None
  end.

(** The conversion of an [int] operand to [float] in mixed arithmetic:
    rounded to nearest, ties to even; [None] is the [OverflowError]. *)
Definition float_of_int (z : Z) : option float :=
  match binary_normalize prec emax z 0 false with
  | S754_infinity _ => None
  | f => Some (SF2Prim f)
  end.

(** [decimal_to_dms] (commons_client.py, lines 20-26) *)
Definition decimal_to_dms (deg : float) : option (Z * Z * float) :=
  let deg_abs := PrimFloat.abs deg in
  match py_int deg_abs with
  | None => None
  | Some degrees =>
      match float_of_int degrees with
      | None => None
      | Some fd =>
          let minutes_float := ((deg_abs - fd) * 60)%float in
          match py_int minutes_float with
          | None => None
          | Some minutes =>
              match float_of_int minutes with
              | None => None
              | Some fm => Some (degrees, minutes, ((minutes_float - fm) * 60)%float)
              end
          end
      end
  end.

(** [min(max(s, 0), 60)]: [max] keeps its first argument unless the
    second is larger, [min] unless the second is smaller. *)
Definition clamp_seconds (s : float) : float :=
  let m := if PrimFloat.ltb s 0 then 0%float else s in
  if PrimFloat.ltb 60 m then 60%float else m.

(** The [gps_ifd] dict built by [set_gps_location]: each DMS value as three
    rationals (numerator, denominator), and the two hemisphere refs. *)
Record GpsIfd : Type := mkGpsIfd {
  gps_latitude : (Z * Z) * (Z * Z) * (Z * Z);
  gps_latitude_ref : string;
  gps_longitude : (Z * Z) * (Z * Z) * (Z * Z);
  gps_longitude_ref : string
}.

(** [set_gps_location(file_path, lat, lng)] (commons_client.py, lines
    29-59) up to the dict it stores as the ["GPS"] IFD of the file's EXIF;
    [None] is an exception of [int()] or of the [int]-to-[float]
    conversion. *)
Definition gps_ifd (lat lng : float) : option GpsIfd :=
  match decimal_to_dms lat, decimal_to_dms lng with
  | Some (lat_d, lat_m, lat_s), Some (lng_d, lng_m, lng_s) =>
      let lat_sec := clamp_seconds lat_s in
      let lng_sec := clamp_seconds lng_s in
      let lat_ref := if (0 <=? lat_d)%Z then "N" else "S" in
      let lng_ref := if (0 <=? lng_d)%Z then "E" else "W" in
      match py_int (PrimFloat.abs lat_sec * 1000)%float,
            py_int (PrimFloat.abs lng_sec * 1000)%float with
      | Some la_s, Some lo_s =>
          Some (mkGpsIfd ((Z.abs lat_d, 1%Z), (Z.abs lat_m, 1%Z), (la_s, 1000%Z)) lat_ref
                         ((Z.abs lng_d, 1%Z), (Z.abs lng_m, 1%Z), (lo_s, 1000%Z)) lng_ref)
      | _, _ => None
      end
  | _, _ => None
  end.

(* ------------------------------------------------------------------ *)
(** ** [_get_lat_lon_gps] ([src/commons_client.py]) *)

Section LatLon.
(** [float(s)] on a string: the parsed value, [None] for a [ValueError]. *)
Variable float_of_str : string -> option float.

(** [float(v)]; [None] is the [TypeError] / [ValueError] the source
    catches. *)
Definition py_float (v : pyval) : option float :=
  match v with
  | PFloat f => Some f
  | PBool b => Some (if b then 1%float else 0%float)
  | PStr s => float_of_str s
  | _ => None
  end.

(** [image is not None and isinstance(image, dict) and image.get("name") == gpsname] *)
Definition gps_entry (gpsname : string) (v : pyval) : bool :=
  match v with
  | PDict d => match dget d "name" with Some (PStr n) => String.eqb n gpsname | _ => false end
  | _ => false
  end.

(** The list comprehension [[image["value"] for image in ... if ...]];
    [None] is the [KeyError] of an entry without ["value"]. *)
Fixpoint lat_lon_values (gpsname : string) (l : list pyval) : option (list pyval) :=
  match l with
  | [] => Some []
  | v :: l' =>
      if gps_entry gpsname v then
        match v with
        | PDict d => match dget d "value" with
                     | Some x => match lat_lon_values gpsname l' with
                                 | Some xs => Some (x :: xs)
                                 | None => None
                                 end
                     | None => None
                     end
        | _ => None
        end
      else lat_lon_values gpsname l'
  end.

(** [CommonsClient._get_lat_lon_gps] (commons_client.py, lines 136-148):
    [None] is the [KeyError] that escapes, [Some None] the returned [None]. *)
Definition get_lat_lon_gps (gpsname : string) (l : list pyval) : option (option float) :=
  match lat_lon_values gpsname l with
  | None => None
  | Some [] => Some None
  | Some (x :: _) => Some (py_float x)
  end.

(** [value] of an entry, when it has one. *)
Definition entry_value (v : pyval) : option pyval :=
  match v with PDict d => dget d "value" | _ => None end.

(** [CommonsClient._has_metadata_gps] (commons_client.py, lines 129-134);
    [None] is the [KeyError] of [_get_lat_lon_gps] that escapes. *)
Definition has_metadata_gps (metadata_block : list pyval) : option bool :=
  match metadata_block with
  | [] => Some false
  | _ =>
      match get_lat_lon_gps "GPSLatitude" metadata_block with
      | None => None
      | Some None => Some false
      | Some (Some _) =>
          match get_lat_lon_gps "GPSLongitude" metadata_block with
          | None => None
          | Some r => Some (match r with Some _ => true | None => false end)
          end
      end
  end.

End LatLon.

(* ------------------------------------------------------------------ *)
(** ** [download_file] ([src/commons_client.py]) *)

(** [s.replace("/", "_")] *)
Fixpoint replace_slash (s : string) : string :=
  match s with
  | EmptyString => EmptyString
  | String c s' => String (if Ascii.eqb c "/"%char then "_"%char else c) (replace_slash s')
  end.

(** The answer of [session.get(url, stream=True, timeout=10)]. *)
Record DlResponse : Type := mkDlResponse {
  rs_status_ok : bool;              (* raise_for_status() returns normally *)
  rs_content_type : string;         (* headers.get("Content-Type", "") *)
  rs_chunks : list string;          (* iter_content(chunk_size=8192) *)
  rs_fail_after : option nat        (* a RequestException after that many chunks *)
}.

Inductive DlNet : Type :=
| NetRaise                          (* session.get raises a RequestException *)
| NetResp (r : DlResponse).

Definition write_chunks (w : World) (p : FPath) (cs : list string) : World :=
  mkWorld (fset (w_files w) p (mkFileC (fold_left String.append cs "") "")) (w_buf w).

(** [CommonsClient.download_file] (commons_client.py, lines 222-241) on the
    download directory [dir]: the returned path and the directory after
    the call. *)
Definition download_file (dir : string) (w : World) (u : UploadInfo) (net : DlNet)
  : option FPath * World :=
  if negb (opt_str_truthy (url u)) then (None, w) else
  let p := mkFPath dir (replace_slash (title u)) in
  let w1 := match flookup (w_files w) p with
            | Some _ => mkWorld (fdelete (w_files w) p) (w_buf w)
            | None => w
            end in
  match net with
  | NetRaise => (None, w1)
  | NetResp r =>
      if negb (rs_status_ok r) then (None, w1)
      else if negb (contains "jpeg" (lower (rs_content_type r))) then (None, w1)
      else match rs_fail_after r with
           | None => (Some p, write_chunks w1 p (rs_chunks r))
           | Some k => (None, write_chunks w1 p (firstn k (rs_chunks r)))
           end
  end.


(* ------------------------------------------------------------------ *)
(** ** Observables of the processor and the crawl *)

(** [l1] is [l2] with some entries removed, the others in order. *)
Inductive subseq {A} : list A -> list A -> Prop :=
| subseq_nil : subseq [] []
| subseq_skip x l1 l2 : subseq l1 l2 -> subseq l1 (x :: l2)
| subseq_keep x l1 l2 : subseq l1 l2 -> subseq (x :: l1) (x :: l2).

Definition counters (p : PState) : nat :=
  (ps_updated p + ps_skipped_has_gps p + ps_skipped_no_gps p + ps_errors p)%nat.

Definition upload_of (up : bool) (u : UploadInfo) (ev : Event) : Prop :=
  match ev with
  | EUpload _ t => up = true /\ t = title u /\ has_coords u = true /\ has_exif_gps u = false /\
                   valid_coordinates (lat u) (lon u) = true
  | _ => True
  end.


Definition upload_from (up : bool) (images : list UploadInfo) (ev : Event) : Prop :=
  match ev with
  | EUpload _ t => up = true /\ exists u, In u images /\ t = title u /\ has_coords u = true /\
                   has_exif_gps u = false /\ valid_coordinates (lat u) (lon u) = true
  | _ => True
  end.


Definition requested_titles (tr : list Event) : list string :=
  flat_map (fun ev => match ev with EApiPages ts => ts | _ => [] end) tr.

Definition batch_ok (ev : Event) : Prop :=
  match ev with EApiPages ts => (1 <= length ts <= 50)%nat | _ => True end.

Definition listing_event (ev : Event) : Prop :=
  match ev with EApiLog _ | EApiCat _ | EApiPages _ => True | _ => False end.

Definition cat_request_in (cats : list string) (ev : Event) : Prop :=
  match ev with EApiCat p => exists c tok, In c cats /\ p = cat_params c tok | _ => True end.

(** The uploads the batch answers of a trace describe, in request order. *)
Definition fetched_pages (api : Api) (tr : list Event) : list UploadInfo :=
  flat_map (fun ev => match ev with
                      | EApiPages ts => map page_to_upload (api_pages api ts)
                      | _ => []
                      end) tr.


(* ------------------------------------------------------------------ *)
(** ** More concrete inputs *)

(** A checkpoint the crawl of [api_two_pages] ends with. *)
Definition st_two_scanned : ScanState := mkScanState [upload_X; upload_Y] [] None.

(** A [json.loads] that reads the text ["{}"] as the checkpoint of
    [st_five] (the encoder [dump_two_chunks] writes ["{"] then ["}"]). *)
Definition loads_st_five (text : list Z) : option pyval :=
  match text with
  | [123%Z; 125%Z] => Some (ScanState_to_dict st_five)
  | _ => None
  end.

(** A JPEG response whose stream raises a [RequestException] after its
    first chunk. *)
Definition resp_fail_after_one : DlNet :=
  NetResp (mkDlResponse true "image/jpeg" ["ab"; "cd"] (Some 1%nat)).

(** A page whose [coordinates] list is present but empty. *)
Definition page_empty_coords : Page :=
  mkPage "File:Z.jpg" (Some []) false (Some (commons_url "Z.jpg")) None.

(** GPS metadata entries as [imageinfo] returns them. *)
Definition gps_meta (name : string) (v : pyval) : pyval :=
  PDict [("name", PStr name); ("value", v)].

(** The GPS block [set_gps_location] builds for [(-33.5, -70.25)]. *)
Definition ifd_south_west : GpsIfd :=
  mkGpsIfd ((33, 1), (30, 1), (0, 1000))%Z "N" ((70, 1), (15, 1), (0, 1000))%Z "E".


(** * Properties *)

(* ------------------------------------------------------------------ *)
(** ** Checkpoint records: [to_dict] / [from_dict] *)

Lemma mapM_upload_roundtrip (l : list UploadInfo) :
  mapM UploadInfo_from_dict (map UploadInfo_to_dict l) = Some l.
Proof.
  induction l as [|[t hc hg la lo ur au] l IH]; [reflexivity|].
  cbn [map mapM].
  replace (UploadInfo_from_dict (UploadInfo_to_dict (mkUploadInfo t hc hg la lo ur au)))
    with (Some (mkUploadInfo t hc hg la lo ur au))
    by (destruct la, lo, ur, au; reflexivity).
  now rewrite IH.
Qed.

Lemma mapM_str_roundtrip (l : list string) : mapM as_str (map PStr l) = Some l.
Proof. induction l as [|x l IH]; [reflexivity|]. cbn. now rewrite IH. Qed.

Lemma UploadInfo_from_dict_fields d u :
  UploadInfo_from_dict (PDict d) = Some u ->
  as_str (dget_default d "title" (PStr "")) = Some (title u) /\
  as_bool (dget_default d "has_coords" (PBool false)) = Some (has_coords u) /\
  as_bool (dget_default d "has_exif_gps" (PBool false)) = Some (has_exif_gps u) /\
  as_opt_float (dget_default d "lat" PNone) = Some (lat u) /\
  as_opt_float (dget_default d "lon" PNone) = Some (lon u) /\
  as_opt_str (dget_default d "url" PNone) = Some (url u) /\
  as_opt_str (dget_default d "author" PNone) = Some (author u).
Proof.
  unfold UploadInfo_from_dict.
  destruct (as_str _) as [t|]; [|discriminate].
  destruct (as_bool (dget_default d "has_coords" _)) as [hc|]; [|discriminate].
  destruct (as_bool (dget_default d "has_exif_gps" _)) as [hg|]; [|discriminate].
  destruct (as_opt_float (dget_default d "lat" _)) as [la|]; [|discriminate].
  destruct (as_opt_float (dget_default d "lon" _)) as [lo|]; [|discriminate].
  destruct (as_opt_str (dget_default d "url" _)) as [ur|]; [|discriminate].
  destruct (as_opt_str (dget_default d "author" _)) as [au|]; [|discriminate].
  intros H. injection H as <-. cbn.
  split; [reflexivity|split; [reflexivity|split; [reflexivity|split; [reflexivity|
    split; [reflexivity|split; reflexivity]]]]].
Qed.

Lemma ScanState_from_dict_fields d s :
  ScanState_from_dict (PDict d) = Some s ->
  (dget d "needs_exif" = None -> needs_exif s = []) /\
  (dget d "needs_template" = None -> needs_template s = []) /\
  (dget d "scan_continue" = None -> scan_continue s = None).
Proof.
  destruct d as [|x d'].
  - intros H. cbn in H. injection H as <-. cbn. split; [auto|split; auto].
  - unfold ScanState_from_dict. cbv zeta.
    change (negb (truthy (PDict (x :: d')))) with false. cbv iota.
    match goal with
    | |- match ?a with Some _ => _ | None => _ end = _ -> _ => destruct a as [ne|] eqn:Ene; [|discriminate]
    end.
    match goal with
    | |- match ?a with Some _ => _ | None => _ end = _ -> _ => destruct a as [nt|] eqn:Ent; [|discriminate]
    end.
    match goal with
    | |- match ?a with Some _ => _ | None => _ end = _ -> _ => destruct a as [sc|] eqn:Esc; [|discriminate]
    end.
    intros H. injection H as <-. cbn [needs_exif needs_template scan_continue].
    split; [|split]; intros Hk.
    + unfold dget_default in Ene. rewrite Hk in Ene. cbn in Ene. congruence.
    + unfold dget_default in Ent. rewrite Hk in Ent. cbn in Ent. congruence.
    + rewrite Hk in Esc. cbn in Esc. injection Esc as <-. reflexivity.
Qed.

Lemma UploadInfo_from_dict_missing d u :
  UploadInfo_from_dict (PDict d) = Some u ->
  (dget d "title" = None -> title u = "") /\
  (dget d "has_coords" = None -> has_coords u = false) /\
  (dget d "has_exif_gps" = None -> has_exif_gps u = false) /\
  (dget d "lat" = None -> lat u = None) /\
  (dget d "lon" = None -> lon u = None) /\
  (dget d "url" = None -> url u = None) /\
  (dget d "author" = None -> author u = None).
Proof.
  intros H. apply UploadInfo_from_dict_fields in H.
  unfold dget_default in H. destruct H as (H1 & H2 & H3 & H4 & H5 & H6 & H7).
  repeat split; intros Hk; rewrite Hk in *; cbn in *; congruence.
Qed.

Lemma dget_cons_same k v d : dget ((k, v) :: d) k = Some v.
Proof. cbn. now rewrite String.eqb_refl. Qed.

Lemma dget_cons_other k k' v d : k' <> k -> dget ((k, v) :: d) k' = dget d k'.
Proof. intros H. cbn. apply String.eqb_neq in H. now rewrite H. Qed.

Lemma UploadInfo_from_dict_default d k v :
  In (k, v) UploadInfo_defaults -> dget d k = None ->
  UploadInfo_from_dict (PDict d) = UploadInfo_from_dict (PDict ((k, v) :: d)).
Proof.
  intros Hin Hk. cbn in Hin. unfold UploadInfo_from_dict, dget_default.
  repeat destruct Hin as [Hin|Hin]; try contradiction; injection Hin as <- <-;
    rewrite dget_cons_same, !dget_cons_other by discriminate; rewrite Hk; reflexivity.
Qed.

Lemma ScanState_from_dict_default d k v :
  In (k, v) ScanState_defaults -> dget d k = None ->
  ScanState_from_dict (PDict d) = ScanState_from_dict (PDict ((k, v) :: d)).
Proof.
  intros Hin Hk. cbn in Hin.
  destruct d as [|x d'].
  - repeat destruct Hin as [Hin|Hin]; try contradiction; injection Hin as <- <-; reflexivity.
  - unfold ScanState_from_dict.
    change (negb (truthy (PDict (x :: d')))) with false.
    change (negb (truthy (PDict ((k, v) :: x :: d')))) with false.
    cbv iota. unfold dget_default.
    repeat destruct Hin as [Hin|Hin]; try contradiction; injection Hin as <- <-;
      rewrite dget_cons_same, !dget_cons_other by discriminate; rewrite Hk; reflexivity.
Qed.

(** C9: [ScanState.from_dict(state.to_dict())] and
    [UploadInfo.from_dict(info.to_dict())] give back the original records,
    and a key missing from the input dict reads as absent: for every dict,
    a record read from it has the default ([""], [False], [None], [[]]) in
    each field whose key is missing, and a missing key gives the same
    result as the key present with its default value, so it never makes
    [from_dict] fail.  A bare string, [{}] and [None] are read the same way. *)
Theorem C9_roundtrip :
  (forall s, ScanState_from_dict (ScanState_to_dict s) = Some s) /\
  (forall u, UploadInfo_from_dict (UploadInfo_to_dict u) = Some u) /\
  (forall d u, UploadInfo_from_dict (PDict d) = Some u ->
     (dget d "title" = None -> title u = "") /\
     (dget d "has_coords" = None -> has_coords u = false) /\
     (dget d "has_exif_gps" = None -> has_exif_gps u = false) /\
     (dget d "lat" = None -> lat u = None) /\
     (dget d "lon" = None -> lon u = None) /\
     (dget d "url" = None -> url u = None) /\
     (dget d "author" = None -> author u = None)) /\
  (forall d k v, In (k, v) UploadInfo_defaults -> dget d k = None ->
     UploadInfo_from_dict (PDict d) = UploadInfo_from_dict (PDict ((k, v) :: d))) /\
  (forall d s, ScanState_from_dict (PDict d) = Some s ->
     (dget d "needs_exif" = None -> needs_exif s = []) /\
     (dget d "needs_template" = None -> needs_template s = []) /\
     (dget d "scan_continue" = None -> scan_continue s = None)) /\
  (forall d k v, In (k, v) ScanState_defaults -> dget d k = None ->
     ScanState_from_dict (PDict d) = ScanState_from_dict (PDict ((k, v) :: d))) /\
  (forall t, UploadInfo_from_dict (PDict [("title", PStr t)])
             = Some (mkUploadInfo t false false None None None None)) /\
  (forall t, UploadInfo_from_dict (PStr t)
             = Some (mkUploadInfo t false false None None None None)) /\
  (forall l, ScanState_from_dict (PDict [("needs_exif", PList l)])
             = option_map (fun ne => mkScanState ne [] None) (mapM UploadInfo_from_dict l)) /\
  ScanState_from_dict (PDict []) = Some empty_state /\
  ScanState_from_dict PNone = Some empty_state.
Proof.
  split; [|split; [|split; [|split; [|split; [|split; [|split; [|split; [|split; [|split]]]]]]]]].
  - intros [ne nt sc]. unfold ScanState_from_dict, ScanState_to_dict. cbn -[mapM map].
    rewrite mapM_upload_roundtrip, mapM_str_roundtrip.
    destruct sc; reflexivity.
  - intros [t hc hg la lo ur au]. destruct la, lo, ur, au; reflexivity.
  - exact UploadInfo_from_dict_missing.
  - exact UploadInfo_from_dict_default.
  - exact ScanState_from_dict_fields.
  - exact ScanState_from_dict_default.
  - reflexivity.
  - reflexivity.
  - intros l. unfold ScanState_from_dict. cbn -[mapM].
    destruct (mapM UploadInfo_from_dict l); reflexivity.
  - reflexivity.
  - reflexivity.
Qed.

(* ------------------------------------------------------------------ *)
(** ** Routing of the scanned entries *)


(** C4: over the entries returned by a listing call, the routing loop
    appends to [needs_exif] exactly the entries that pass the filters with
    [has_coords and not has_exif_gps], appends to [needs_template] exactly
    the titles of those with [has_exif_gps and not has_coords], and adds
    nothing for an entry with both flags or neither. *)
Theorem C4_route_trichotomy (af : option string) (ups : list UploadInfo)
        (st : ScanState) (seen : list string) :
  fst (fold_left (route af) ups (st, seen)) =
  mkScanState (needs_exif st ++ filter (routes_to_exif af) ups)
              (needs_template st ++ map title (filter (routes_to_template af) ups))
              (scan_continue st).
Proof.
  revert st seen.
  induction ups as [|u ups IH]; intros st seen.
  - destruct st; cbn. now rewrite !app_nil_r.
  - cbn [fold_left filter].
    unfold routes_to_exif at 1, routes_to_template at 1, passes_filters.
    unfold route at 2.
    destruct (is_jpeg_title (title u)); cbn [negb andb];
      [| now rewrite IH].
    match goal with |- context [if ?g then (st, seen) else _] => destruct g end;
      cbn [negb andb]; [now rewrite IH|].
    destruct (has_coords u), (has_exif_gps u); cbn [negb andb]; rewrite IH; cbn;
      rewrite <- ?app_assoc; reflexivity.
Qed.

(** The scenario of the spec: [A] (coordinates only), [B] (EXIF GPS only),
    [C] (both): [A] is queued for EXIF, [B] for the template, [C] dropped. *)
Example route_scenario_ABC :
  let mk t c g := mkUploadInfo t c g None None None None in
  fst (fold_left (route None) [mk "A.jpg" true false; mk "B.jpg" false true; mk "C.jpg" true true]
                 (empty_state, []))
  = mkScanState [mk "A.jpg" true false] ["B.jpg"] None.
Proof. reflexivity. Qed.

Lemma fst_bind {A B} (m : M A) (k : A -> M B) :
  fst (bind m k) = fst m ++ match snd m with None => [] | Some a => fst (k a) end.
Proof.
  destruct m as [t [a|]]; cbn; [|now rewrite app_nil_r].
  destruct (k a); reflexivity.
Qed.

Lemma snd_bind {A B} (m : M A) (k : A -> M B) :
  snd (bind m k) = match snd m with None => None | Some a => snd (k a) end.
Proof. destruct m as [t [a|]]; cbn; [destruct (k a)|]; reflexivity. Qed.


(** C10: with both queues non-empty (after dropping [needs_exif] entries
    without coordinates) and no continuation token, [scan_user_uploads]
    returns at once, with no request, the input state minus those entries;
    when one of the queues is empty, a crawl from the beginning of the
    listing starts even though the previous scan had completed. *)
Theorem C10_early_return (api : Api) (user : string) (category : option string)
        (max_depth : Z) (af : option string) (fuel : nat) (st : ScanState) :
  scan_continue st = None ->
  (filter has_coords (needs_exif st) <> [] -> needs_template st <> [] ->
   scan_user_uploads api user category max_depth af fuel st
   = ([], Some (set_needs_exif st (filter has_coords (needs_exif st))))) /\
  (filter has_coords (needs_exif st) = [] \/ needs_template st = [] ->
   exists rest, fst (scan_user_uploads api user category max_depth af (S (S (S fuel))) st)
                = first_listing_call user category :: rest).
Proof.
  intros Hc. unfold scan_user_uploads. rewrite Hc. cbn [cont_truthy negb].
  split.
  - intros Hne Hnt. cbn [needs_exif needs_template set_needs_exif].
    destruct (filter has_coords (needs_exif st)); [contradiction|].
    destruct (needs_template st); [contradiction|]. reflexivity.
  - intros Hempty.
    replace (match needs_exif (set_needs_exif st (filter has_coords (needs_exif st))) with
             | [] => false | _ :: _ => true end &&
             match needs_template (set_needs_exif st (filter has_coords (needs_exif st))) with
             | [] => false | _ :: _ => true end && true) with false
      by (cbn; destruct Hempty as [E|E]; rewrite E; [reflexivity|];
          destruct (filter has_coords (needs_exif st)); reflexivity).
    cbn [scan_loop]. rewrite fst_bind. unfold first_listing_call.
    destruct (opt_str_truthy category).
    + rewrite fst_bind. unfold list_category_files. cbn [list_cat_loop].
      rewrite fst_bind. cbn. eexists. reflexivity.
    + unfold list_uploads. cbn [list_uploads_loop]. rewrite fst_bind. cbn.
      eexists. reflexivity.
Qed.

Lemma C10_early_return_witness :
  scan_continue st_both_queued = None /\
  scan_user_uploads api_two_pages "Wilfredor" None 0 None 5 st_both_queued
    = ([], Some (set_needs_exif st_both_queued (filter has_coords (needs_exif st_both_queued)))).
Proof.
  split; [reflexivity|].
  apply (proj1 (C10_early_return api_two_pages "Wilfredor" None 0 None 5 st_both_queued eq_refl));
    cbv; discriminate.
Defined.

(* ------------------------------------------------------------------ *)
(** ** Deduplication and checkpointing of the crawl *)


(** C5 (counterexample): the queued title [X.jpg] is listed again by the
    upload log as [File:X.jpg]; [seen_titles] holds the stripped title, so
    the entry is fetched and queued a second time. *)
Lemma C5_duplicate_after_rescan :
  NoDup (queued_titles (mkScanState [upload_X] [] None)) /\
  exists st1,
    snd (scan_user_uploads api_two_pages "Wilfredor" None 1 (Some "Wilfredor") 10
                           (mkScanState [upload_X] [] None)) = Some st1 /\
    queued_titles st1 = ["X.jpg"; "X.jpg"; "Y.jpg"] /\
    ~ NoDup (queued_titles st1).
Proof.
  split; [repeat constructor; intros []|].
  eexists; split; [vm_compute; reflexivity|].
  split; [vm_compute; reflexivity|].
  vm_compute. intros H. inversion H as [|x l Hnotin Hnd]. apply Hnotin. left. reflexivity.
Qed.

(** C7 (counterexample): on a two-page upload log, both pages are requested
    before the only [save_state], and the saved continuation is [None]. *)
Lemma C7_pages_fetched_before_save :
  exists s,
    scan_user_uploads api_two_pages "Wilfredor" None 1 (Some "Wilfredor") 10 empty_state
    = ([EApiLog (log_base_params "Wilfredor"); EApiPages ["File:X.jpg"];
        EApiLog (dupdate (log_base_params "Wilfredor") log_cont1); EApiPages ["File:Y.jpg"];
        ESave s], Some s) /\
    scan_continue s = None /\ needs_exif s = [upload_X; upload_Y].
Proof. eexists. split; [vm_compute; reflexivity|]. split; reflexivity. Qed.

(* ------------------------------------------------------------------ *)
(** ** Processing loop *)

(** C3 (counterexample): one eligible item whose download raises; the
    outer [except] counts the error, and the item stays in the queue. *)
Lemma C3_item_kept_after_download_exception :
  exists tr ps,
    process_needs_exif 30 true env_download_raises (mkScanState [upload_X] [] None) 19
                       [upload_X] 0 = (tr, Some (Finished ps)) /\
    ps_errors ps = 1%nat /\ needs_exif (ps_state ps) = [upload_X].
Proof. do 2 eexists. split; [vm_compute; reflexivity|]. split; reflexivity. Qed.

(** C6 (counterexample): with [max_edits_per_min = 1], the default
    [--sleep 10] and a jitter inside its range, two uploads fall within
    12 s of each other. *)
Lemma C6_two_uploads_in_one_window :
  (forall n, jitter_in_range 10000 (env_all_ok n)) /\
  exists ps,
    process_needs_exif 1 true env_all_ok (mkScanState [upload_X; upload_Y] [] None) 19
                       [upload_X; upload_Y] 0
    = ([EUpload 1000 "X.jpg"; ESave (mkScanState [upload_Y] [] None);
        ESleep 10000; EUpload 13000 "Y.jpg"; ESave (mkScanState [] [] None);
        ESleep 48000; ESleep 10000], Some (Finished ps)) /\
    (1 < uploads_in_window 0 (fst (process_needs_exif 1 true env_all_ok
                                     (mkScanState [upload_X; upload_Y] [] None) 19
                                     [upload_X; upload_Y] 0)))%nat.
Proof.
  split; [intros n; unfold jitter_in_range; cbn; lia|].
  eexists. split; [vm_compute; reflexivity|]. vm_compute. lia.
Qed.







Lemma rate_limit_sleep_budget max_per_min jitter ps r :
  snd (rate_limit_sleep max_per_min jitter ps) = Some (Some r) -> budget r = budget ps.
Proof.
  unfold rate_limit_sleep. rewrite snd_bind.
  destruct (max_per_min <=? _)%Z;
    [destruct (filter _ _) as [|t0 ts]; cbn|cbn]; intros H; inversion H; reflexivity.
Qed.

Lemma finish_item_budget max_per_min e ps s :
  snd (finish_item max_per_min e ps) = Some s -> budget (step_state s) = budget ps.
Proof.
  unfold finish_item, after_item. rewrite snd_bind.
  destruct (ps_edits_count ps =? 0)%Z; cbn; [intros H; inversion H; reflexivity|].
  rewrite snd_bind. destruct (snd (rate_limit_sleep _ _ _)) as [[r|]|] eqn:E; cbn;
    intros H; inversion H; subst; cbn; [|reflexivity].
  now apply rate_limit_sleep_budget in E.
Qed.

Lemma process_item_budget max_per_min up env idx u ps s :
  snd (process_item max_per_min up env idx u ps) = Some s ->
  budget (step_state s) = budget ps.
Proof.
  unfold process_item, save.
  destruct (has_coords u), (has_exif_gps u); cbn [negb];
    try (destruct (list_remove _ _);
         repeat first [progress cbn [snd emit ret] | rewrite snd_bind];
         [intros H; inversion H; reflexivity
         |intros H; apply finish_item_budget in H; rewrite H; reflexivity]).
  destruct (e_download (env idx));
    repeat first [progress cbn [snd emit ret] | rewrite snd_bind].
  - destruct (valid_coordinates _ _), (e_exif_ok (env idx)), up, (e_upload_ok (env idx));
      cbn [negb]; repeat first [progress cbn [snd emit ret] | rewrite snd_bind];
      intros H; apply finish_item_budget in H; rewrite H;
      unfold budget; cbn; lia.
  - intros H; apply finish_item_budget in H; rewrite H. reflexivity.
  - intros H; apply finish_item_budget in H; rewrite H. reflexivity.
Qed.

Lemma process_loop_budget max_per_min up env images :
  forall idx ps o,
  snd (process_loop max_per_min up env idx images ps) = Some o ->
  budget (match o with Finished p | Raised p => p end) = budget ps.
Proof.
  induction images as [|u rest IH]; intros idx ps o; cbn [process_loop].
  - cbn. intros H; inversion H; reflexivity.
  - rewrite snd_bind. destruct (snd (process_item _ _ _ idx u ps)) as [s|] eqn:E; [|discriminate].
    apply process_item_budget in E.
    destruct s as [p|p|p]; cbn in E |- *;
      [intros H; apply IH in H; congruence | intros H; inversion H; subst; exact E
      | intros H; inversion H; subst; exact E].
Qed.





(* ------------------------------------------------------------------ *)
(** ** Loading the checkpoint *)



(** C2 (code bug): a checkpoint that is not valid UTF-8 is not JSON either,
    but [path.open()] decodes it before [json.load] runs: the
    [UnicodeDecodeError] is not a [JSONDecodeError], so it escapes
    [load_state] whatever the JSON parser, and the file is not moved. *)
Lemma C2_non_utf8_checkpoint_raises (json_loads : list Z -> option pyval) (ts : string) :
  load_state json_loads (mkWorld [(state_path, file_FF)] "") state_path ts
  = LoadRaised UnicodeDecodeError (mkWorld [(state_path, file_FF)] "").
Proof. reflexivity. Qed.

(** A file that decodes but that [json.loads] rejects is moved to
    [<name>.corrupt.<ts>.bak] in the same directory, a warning is logged and
    the empty state is returned. *)
Lemma load_state_unparsable (json_loads : list Z -> option pyval) (w : World)
      (path : FPath) (ts : string) (f : FileC) (text : list Z) :
  flookup (w_files w) path = Some f ->
  utf8_decode (bytes_of (f_vol f)) = Some text ->
  json_loads text = None ->
  load_state json_loads w path ts
  = Loaded empty_state (rename w path (corrupt_backup path ts)) true.
Proof. intros Hf Hd Hj. unfold load_state. now rewrite Hf, Hd, Hj. Qed.

(** The empty file: [json.loads("")] raises [JSONDecodeError]. *)
Lemma load_state_empty_file (json_loads : list Z -> option pyval) (w : World)
      (path : FPath) (ts : string) (d : string) :
  flookup (w_files w) path = Some (mkFileC "" d) ->
  json_loads [] = None ->
  load_state json_loads w path ts
  = Loaded empty_state (rename w path (corrupt_backup path ts)) true.
Proof. intros Hf Hj. now apply (load_state_unparsable _ _ _ _ (mkFileC "" d) []). Qed.

Lemma load_state_absent (json_loads : list Z -> option pyval) (w : World)
      (path : FPath) (ts : string) :
  flookup (w_files w) path = None -> load_state json_loads w path ts = Loaded empty_state w false.
Proof. intros Hf. unfold load_state. now rewrite Hf. Qed.

(* ------------------------------------------------------------------ *)
(** ** Saving the checkpoint *)

Lemma path_eqb_refl (p : FPath) : path_eqb p p = true.
Proof. unfold path_eqb. now rewrite !String.eqb_refl. Qed.

Lemma path_eqb_eq (p q : FPath) : path_eqb p q = true <-> p = q.
Proof.
  destruct p as [d1 n1], q as [d2 n2]. unfold path_eqb; cbn.
  rewrite andb_true_iff, !String.eqb_eq. split; [intros [-> ->]; reflexivity|].
  intros H; inversion H; auto.
Qed.

Lemma path_eqb_neq (p q : FPath) : p <> q -> path_eqb p q = false.
Proof. intros H. destruct (path_eqb p q) eqn:E; [apply path_eqb_eq in E; contradiction|reflexivity]. Qed.

Lemma flookup_fdelete_same fs p : flookup (fdelete fs p) p = None.
Proof.
  induction fs as [|[q f] fs IH]; [reflexivity|]. cbn.
  destruct (path_eqb p q) eqn:E; [exact IH|]. cbn. now rewrite E.
Qed.

Lemma flookup_fdelete_other fs p q : path_eqb q p = false -> flookup (fdelete fs p) q = flookup fs q.
Proof.
  intros Hqp. induction fs as [|[r f] fs IH]; [reflexivity|]. cbn.
  destruct (path_eqb p r) eqn:E.
  - apply path_eqb_eq in E; subst. now rewrite Hqp.
  - cbn. destruct (path_eqb q r); [reflexivity|exact IH].
Qed.

Lemma flookup_fset_same fs p f : flookup (fset fs p f) p = Some f.
Proof. unfold fset. cbn. now rewrite path_eqb_refl. Qed.

Lemma flookup_fset_other fs p q f : path_eqb q p = false -> flookup (fset fs p f) q = flookup fs q.
Proof. intros H. unfold fset. cbn. rewrite H. now apply flookup_fdelete_other. Qed.


Lemma path_eqb_sym p q : path_eqb p q = path_eqb q p.
Proof. unfold path_eqb. now rewrite (String.eqb_sym (p_dir p)), (String.eqb_sym (p_name p)). Qed.

Lemma run_op_untouched w op p :
  touches p op = false -> flookup (w_files (run_op w op)) p = flookup (w_files w) p.
Proof.
  intros H. destruct op as [q|c|q|q|s d|q]; cbn [touches] in H; unfold run_op.
  - rewrite path_eqb_sym in H. now apply flookup_fset_other.
  - reflexivity.
  - rewrite path_eqb_sym in H. unfold flush_to.
    destruct (flookup (w_files w) q); [now apply flookup_fset_other|reflexivity].
  - rewrite path_eqb_sym in H.
    destruct (flookup (w_files w) q); [now apply flookup_fset_other|reflexivity].
  - apply orb_false_iff in H as [Hs Hd].
    rewrite path_eqb_sym in Hs. rewrite path_eqb_sym in Hd.
    destruct (flookup (w_files w) s); [|reflexivity]. cbn [w_files].
    rewrite flookup_fset_other by exact Hd. now apply flookup_fdelete_other.
  - rewrite path_eqb_sym in H. unfold flush_to.
    destruct (flookup (w_files w) q); [now apply flookup_fset_other|reflexivity].
Qed.

Lemma run_ops_untouched ops : forall w p,
  Forall (fun op => touches p op = false) ops ->
  flookup (w_files (run_ops w ops)) p = flookup (w_files w) p.
Proof.
  induction ops as [|op ops IH]; intros w p H; [reflexivity|].
  inversion H; subst. unfold run_ops; cbn. fold (run_ops (run_op w op) ops).
  rewrite IH by assumption. now apply run_op_untouched.
Qed.

Lemma run_ops_app w l1 l2 : run_ops w (l1 ++ l2) = run_ops (run_ops w l1) l2.
Proof. unfold run_ops. apply fold_left_app. Qed.

Lemma run_ops_writes cs : forall fs b,
  run_ops (mkWorld fs b) (map OWrite cs) = mkWorld fs (fold_left String.append cs b).
Proof. induction cs as [|c cs IH]; intros fs b; [reflexivity|]. cbn. apply IH. Qed.

Lemma choose_tmp_spec fs dir cands tmp :
  choose_tmp fs dir cands = Some tmp ->
  p_dir tmp = dir /\ In (p_name tmp) cands /\ flookup fs tmp = None.
Proof.
  induction cands as [|n cs IH]; [discriminate|]. cbn.
  destruct (flookup fs (mkFPath dir n)) eqn:E.
  - intros H. destruct (IH H) as (? & ? & ?). auto.
  - intros H; inversion H; subst. cbn. auto.
Qed.

Lemma Forall_firstn {A} (P : A -> Prop) (l : list A) k : Forall P l -> Forall P (firstn k l).
Proof.
  revert k. induction l as [|x l IH]; intros [|k] H; cbn; auto.
  inversion H; subst. constructor; auto.
Qed.

Lemma run_op_replace fs b s d f :
  flookup fs s = Some f -> run_op (mkWorld fs b) (OReplace s d) = mkWorld (fset (fdelete fs s) d f) b.
Proof. intros H. cbn [run_op w_files w_buf]. now rewrite H. Qed.

(** C1: [save_state] creates the temporary file in the directory of the
    destination, under a name that is not the destination's, writes the
    chunks, flushes, fsyncs and renames it over the destination, then
    closes it.  After every prefix of its operations (including the runs
    where one operation raises and [finally] closes the file), both the
    entry a reader sees and the entry left after a power loss are the
    previous one or the complete new text, never a part of it.  The
    destination either exists already ([O_EXCL] then never picks its name)
    or its name is not among the random candidates. *)
Theorem C1_save_state_atomic (encode : ScanState -> list string) (w : World)
        (cands : list string) (path : FPath) (state : ScanState) (fail : option nat)
        (tmp : FPath) :
  choose_tmp (w_files w) (p_dir path) cands = Some tmp ->
  flookup (w_files w) path <> None \/ ~ In (p_name path) cands ->
  p_dir tmp = p_dir path /\ tmp <> path /\
  save_state_ops encode w cands path state None
    = OCreate tmp :: map OWrite (encode state)
        ++ [OFlush tmp; OFsync tmp; OReplace tmp path; OClose tmp] /\
  forall k,
    let w' := run_ops w (firstn k (save_state_ops encode w cands path state fail)) in
    (read_now w' path = read_now w path \/
     read_now w' path = Some (serialized encode state)) /\
    (read_after_crash w' path = read_after_crash w path \/
     read_after_crash w' path = Some (serialized encode state)).
Proof.
  intros Hch Hdest.
  destruct (choose_tmp_spec _ _ _ _ Hch) as (Hdir & Hin & Hfresh).
  assert (Hneq : tmp <> path).
  { intros ->. destruct Hdest as [H|H]; [exact (H Hfresh)|exact (H Hin)]. }
  assert (Htp : path_eqb tmp path = false) by (apply path_eqb_neq; exact Hneq).
  assert (Hpt : path_eqb path tmp = false) by (rewrite path_eqb_sym; exact Htp).
  split; [exact Hdir|]. split; [exact Hneq|].
  unfold save_state_ops. rewrite Hch.
  split; [cbn; now rewrite <- app_assoc|].
  set (pre := map OWrite (encode state) ++ [OFlush tmp; OFsync tmp]).
  assert (Hpre : Forall (fun op => touches path op = false) pre).
  { unfold pre. apply Forall_app. split.
    - apply Forall_forall. intros op Hop. apply in_map_iff in Hop as (c & <- & _). reflexivity.
    - repeat constructor; cbn; exact Htp. }
  assert (Hbody : map OWrite (encode state) ++ [OFlush tmp; OFsync tmp; OReplace tmp path]
                  = pre ++ [OReplace tmp path]) by (unfold pre; now rewrite <- app_assoc).
  rewrite Hbody.
  intros k. cbv zeta.
  (* the entry of [path] is untouched, or the rename has happened *)
  assert (Hmid : forall mid,
            (mid = pre ++ [OReplace tmp path] \/ Forall (fun op => touches path op = false) mid) ->
            (flookup (w_files (run_ops w (firstn k (OCreate tmp :: mid ++ [OClose tmp])))) path
             = flookup (w_files w) path) \/
            flookup (w_files (run_ops w (firstn k (OCreate tmp :: mid ++ [OClose tmp])))) path
             = Some (mkFileC (serialized encode state) (serialized encode state))).
  { intros mid [->|Hu].
    - replace (OCreate tmp :: (pre ++ [OReplace tmp path]) ++ [OClose tmp])
        with ((OCreate tmp :: pre) ++ [OReplace tmp path; OClose tmp])
        by (cbn; now rewrite <- app_assoc).
      rewrite firstn_app.
      destruct (Nat.le_gt_cases k (length (OCreate tmp :: pre))) as [Hk|Hk].
      + left. replace (k - length (OCreate tmp :: pre))%nat with 0%nat by lia.
        cbn [firstn]. rewrite app_nil_r. apply run_ops_untouched. apply Forall_firstn.
        constructor; [cbn; exact Htp | exact Hpre].
      + right. rewrite (firstn_all2 (n := k)) by lia.
        destruct (k - length (OCreate tmp :: pre))%nat as [|m] eqn:Ekm; [lia|].
        cbn [firstn]. rewrite run_ops_app.
        unfold pre. unfold run_ops at 2. cbn [fold_left].
        rewrite fold_left_app.
        change (fold_left run_op (map OWrite (encode state)) (run_op w (OCreate tmp)))
          with (run_ops (run_op w (OCreate tmp)) (map OWrite (encode state))).
        cbn [run_op]. rewrite run_ops_writes.
        cbn [fold_left run_op]. unfold flush_to. cbn [w_files w_buf].
        rewrite flookup_fset_same. cbn [w_files w_buf f_vol f_dur].
        rewrite flookup_fset_same. cbn [w_files w_buf f_vol f_dur].
        destruct m as [|m]; cbn [firstn]; unfold run_ops; cbn [fold_left];
          rewrite (run_op_replace _ _ _ _ _ (flookup_fset_same _ _ _)); cbn [w_files w_buf].
        * rewrite flookup_fset_same. reflexivity.
        * cbn [run_op]. unfold flush_to. cbn [w_files].
          rewrite flookup_fset_other by exact Htp. rewrite flookup_fdelete_same.
          rewrite firstn_nil; cbn [fold_left w_files]. rewrite flookup_fset_same. reflexivity.
    - left. apply run_ops_untouched. apply Forall_firstn.
      constructor; [cbn; exact Htp|]. apply Forall_app; split; [exact Hu|].
      repeat constructor. cbn. exact Htp. }
  assert (Hcases : forall fl : option nat,
            (match fl with None => pre ++ [OReplace tmp path]
                      | Some j => firstn j (pre ++ [OReplace tmp path]) end)
              = pre ++ [OReplace tmp path] \/
            Forall (fun op => touches path op = false)
              (match fl with None => pre ++ [OReplace tmp path]
                        | Some j => firstn j (pre ++ [OReplace tmp path]) end)).
  { intros [j|]; [|left; reflexivity].
    destruct (Nat.le_gt_cases j (length pre)) as [Hj|Hj].
    - right. rewrite firstn_app. replace (j - length pre)%nat with 0%nat by lia.
      rewrite app_nil_r. now apply Forall_firstn.
    - left. apply firstn_all2. rewrite length_app. cbn. lia. }
  destruct (Hmid _ (Hcases fail)) as [E|E]; unfold read_now, read_after_crash; rewrite E;
    [split; left; reflexivity | split; right; reflexivity].
Qed.

Lemma C1_save_state_atomic_witness :
  choose_tmp (w_files world_old) "." ["tmpk3x9q0"] = Some (mkFPath "." "tmpk3x9q0") /\
  (flookup (w_files world_old) state_path <> None \/ ~ In (p_name state_path) ["tmpk3x9q0"]) /\
  forall k,
    let w' := run_ops world_old (firstn k (save_state_ops dump_two_chunks world_old ["tmpk3x9q0"]
                                             state_path empty_state (Some 2%nat))) in
    (read_now w' state_path = read_now world_old state_path \/
     read_now w' state_path = Some (serialized dump_two_chunks empty_state)) /\
    (read_after_crash w' state_path = read_after_crash world_old state_path \/
     read_after_crash w' state_path = Some (serialized dump_two_chunks empty_state)).
Proof.
  assert (Hch : choose_tmp (w_files world_old) "." ["tmpk3x9q0"] = Some (mkFPath "." "tmpk3x9q0"))
    by reflexivity.
  assert (Hd : flookup (w_files world_old) state_path <> None \/ ~ In (p_name state_path) ["tmpk3x9q0"])
    by (left; cbv; discriminate).
  split; [exact Hch|]. split; [exact Hd|].
  exact (proj2 (proj2 (proj2 (C1_save_state_atomic dump_two_chunks world_old ["tmpk3x9q0"]
                                 state_path empty_state (Some 2%nat) _ Hch Hd)))).
Defined.

(* ------------------------------------------------------------------ *)
(** ** The processor loop *)

Lemma rate_limit_sleep_shape max jitter ps :
  (snd (rate_limit_sleep max jitter ps) = Some None /\
   (max <=? Z.of_nat (length (filter (fun t => ps_clock ps - t <? 60000)%Z (ps_timestamps ps))))%Z = true /\
   filter (fun t => ps_clock ps - t <? 60000)%Z (ps_timestamps ps) = []) \/
  (exists p, snd (rate_limit_sleep max jitter ps) = Some (Some p) /\
   ps_state p = ps_state ps /\ ps_updated p = ps_updated ps /\
   ps_skipped_has_gps p = ps_skipped_has_gps ps /\ ps_skipped_no_gps p = ps_skipped_no_gps ps /\
   ps_errors p = ps_errors ps /\ ps_edits_count p = ps_edits_count ps /\ ps_timestamps p <> []).
Proof.
  unfold rate_limit_sleep. rewrite snd_bind.
  destruct (max <=? _)%Z eqn:Em.
  - destruct (filter _ _) as [|t0 ts] eqn:Ef; cbn.
    + left. auto.
    + right. eexists. split; [reflexivity|]. cbn. repeat split; try reflexivity.
      intros H; first [discriminate | apply app_eq_nil in H as [_ H]; discriminate].
  - cbn. right. eexists. split; [reflexivity|]. cbn. repeat split; try reflexivity.
    intros H; first [discriminate | apply app_eq_nil in H as [_ H]; discriminate].
Qed.

Lemma finish_item_shape max e ps s :
  snd (finish_item max e ps) = Some s ->
  (s = SBreak ps /\ ps_edits_count ps = 0%Z) \/
  (s = SRaise ps /\ ps_edits_count ps <> 0%Z /\
   snd (rate_limit_sleep max (e_jitter_ms e) ps) = Some None) \/
  (exists p, s = SNext p /\ ps_edits_count ps <> 0%Z /\
   snd (rate_limit_sleep max (e_jitter_ms e) ps) = Some (Some p)).
Proof.
  unfold finish_item, after_item. rewrite snd_bind.
  destruct (ps_edits_count ps =? 0)%Z eqn:E0; cbn.
  - intros H; inversion H; subst. left. split; [reflexivity|]. now apply Z.eqb_eq.
  - apply Z.eqb_neq in E0. rewrite snd_bind.
    destruct (snd (rate_limit_sleep _ _ _)) as [[p|]|] eqn:Er; cbn; intros H; inversion H; subst.
    + right; right. eauto.
    + right; left. auto.
Qed.

Lemma subseq_refl {A} (l : list A) : subseq l l.
Proof. induction l; [apply subseq_nil | apply subseq_keep; exact IHl]. Qed.

Lemma subseq_trans {A} (l1 l2 l3 : list A) : subseq l1 l2 -> subseq l2 l3 -> subseq l1 l3.
Proof.
  intros H12 H23. revert l1 H12. induction H23; intros l0 H.
  - exact H.
  - apply subseq_skip. auto.
  - inversion H; subst; [apply subseq_skip; auto | apply subseq_keep; auto].
Qed.

Lemma list_remove_subseq x l r : list_remove x l = Some r -> subseq r l.
Proof.
  revert r. induction l as [|y l IH]; intros r; cbn; [discriminate|].
  destruct (upload_eqb y x).
  - intros H; inversion H; subst. apply subseq_skip. apply subseq_refl.
  - destruct (list_remove x l) eqn:E; [|discriminate]. intros H; inversion H; subst.
    apply subseq_keep. auto.
Qed.

Lemma remove_if_in_subseq x l : subseq (remove_if_in x l) l.
Proof.
  unfold remove_if_in. destruct (list_remove x l) eqn:E;
    [exact (list_remove_subseq x l _ E) | apply subseq_refl].
Qed.

Lemma process_item_shape max up env idx u ps s :
  snd (process_item max up env idx u ps) = Some s ->
  exists q,
    ps_timestamps q = ps_timestamps ps /\
    subseq (needs_exif (ps_state q)) (needs_exif (ps_state ps)) /\
    ((ps_updated q = ps_updated ps /\ ps_edits_count q = ps_edits_count ps) \/
     (ps_updated q = S (ps_updated ps) /\ ps_edits_count q = (ps_edits_count ps - 1)%Z /\
      has_coords u = true /\ has_exif_gps u = false)) /\
    (S (counters ps) <= counters q)%nat /\
    ((s = SNext q /\ (has_coords u = false \/ has_exif_gps u = true)) \/
     snd (finish_item max (env idx) q) = Some s).
Proof.
  unfold process_item, save.
  destruct (has_coords u) eqn:Hc, (has_exif_gps u) eqn:Hg; cbn [negb];
    try (destruct (list_remove u _) as [l|] eqn:Hr;
         repeat first [progress cbn [snd emit ret] | rewrite snd_bind];
         intros H;
         [ match type of H with Some (SNext ?q) = _ => exists q end;
           inversion H; subst; split; [reflexivity|]; split;
           [exact (list_remove_subseq _ _ _ Hr)|];
           split; [left; split; reflexivity|]; split; [unfold counters; cbn; lia|];
           left; split; [reflexivity|auto]
         | match type of H with snd (finish_item _ _ ?q) = _ => exists q end;
           split; [reflexivity|]; split; [apply subseq_refl|];
           split; [left; split; reflexivity|]; split; [unfold counters; cbn; lia|];
           right; exact H ]).
  destruct (e_download (env idx));
    repeat first [progress cbn [snd emit ret] | rewrite snd_bind].
  - destruct (valid_coordinates _ _), (e_exif_ok (env idx)), up, (e_upload_ok (env idx));
      cbn [negb]; repeat first [progress cbn [snd emit ret] | rewrite snd_bind];
      intros H; match type of H with snd (finish_item _ _ ?q) = _ => exists q end; (split; [reflexivity|]); (split; [apply remove_if_in_subseq|]);
      (split; [first [left; split; reflexivity | right; cbn; auto] |]);
      (split; [unfold counters; cbn; lia|]); right; exact H.
  - intros H; match type of H with snd (finish_item _ _ ?q) = _ => exists q end; (split; [reflexivity|]); (split; [apply remove_if_in_subseq|]);
      (split; [left; split; reflexivity|]);
      (split; [unfold counters; cbn; lia|]); right; exact H.
  - intros H; match type of H with snd (finish_item _ _ ?q) = _ => exists q end; (split; [reflexivity|]); (split; [apply subseq_refl|]);
      (split; [left; split; reflexivity|]);
      (split; [unfold counters; cbn; lia|]); right; exact H.
Qed.

Lemma rate_limit_sleep_next_edits max j ps p :
  snd (rate_limit_sleep max j ps) = Some (Some p) ->
  ps_edits_count p = ps_edits_count ps /\ ps_state p = ps_state ps /\ counters p = counters ps.
Proof.
  intros H. destruct (rate_limit_sleep_shape max j ps) as [[E _]|(p' & E & Hs & Hu & Hh & Hn & He & Hc & _)];
    rewrite H in E; inversion E; subst. unfold counters. rewrite Hu, Hh, Hn, He. auto.
Qed.


Lemma process_item_edits_pos max up env idx u ps s :
  (1 <= ps_edits_count ps)%Z ->
  snd (process_item max up env idx u ps) = Some s ->
  match s with
  | SNext p => (1 <= ps_edits_count p)%Z
  | SBreak p | SRaise p => (0 <= ps_edits_count p)%Z
  end.
Proof.
  intros Hpos H. destruct (process_item_shape _ _ _ _ _ _ _ H)
    as (q & _ & _ & Hed & _ & [[-> Hskip]|Hf]).
  - destruct Hed as [[_ E]|(_ & _ & Hc & Hg)]; [lia|]. destruct Hskip; congruence.
  - assert (0 <= ps_edits_count q)%Z by (destruct Hed as [[_ E]|(_ & E & _)]; lia).
    destruct (finish_item_shape _ _ _ _ Hf) as [[-> _]|[(-> & _)|(p & -> & Hnz & Hr)]]; auto.
    apply rate_limit_sleep_next_edits in Hr as (Ep & _). lia.
Qed.

Lemma process_loop_edits_pos max up env images :
  forall idx ps, (1 <= ps_edits_count ps)%Z ->
  match snd (process_loop max up env idx images ps) with
  | Some o => (0 <= ps_edits_count (outcome_state o))%Z
  | None => True
  end.
Proof.
  induction images as [|u rest IH]; intros idx ps Hpos; cbn [process_loop].
  - cbn. lia.
  - rewrite snd_bind. destruct (snd (process_item _ _ _ idx u ps)) as [s|] eqn:E; [|exact I].
    pose proof (process_item_edits_pos _ _ _ _ _ _ _ Hpos E) as Hs.
    destruct s as [p|p|p]; [apply IH; exact Hs | cbn; exact Hs | cbn; exact Hs].
Qed.

Lemma process_item_negative max up env idx u ps s :
  (ps_edits_count ps < 0)%Z ->
  snd (process_item max up env idx u ps) = Some s ->
  match s with
  | SNext p => (ps_edits_count p < 0)%Z /\ (S (counters ps) <= counters p)%nat
  | SBreak _ => False
  | SRaise _ => True
  end.
Proof.
  intros Hneg H. destruct (process_item_shape _ _ _ _ _ _ _ H)
    as (q & _ & _ & Hed & Hcnt & [[-> _]|Hf]).
  - destruct Hed as [[_ E]|(_ & E & _)]; split; auto; lia.
  - assert (ps_edits_count q < 0)%Z by (destruct Hed as [[_ E]|(_ & E & _)]; lia).
    destruct (finish_item_shape _ _ _ _ Hf) as [[-> E0]|[(-> & _)|(p & -> & Hnz & Hr)]];
      [lia|exact I|].
    apply rate_limit_sleep_next_edits in Hr as (Ep & _ & Ec). split; [lia|lia].
Qed.

Lemma process_loop_negative max up env images :
  forall idx ps, (ps_edits_count ps < 0)%Z ->
  match snd (process_loop max up env idx images ps) with
  | Some (Finished p) => (length images + counters ps <= counters p)%nat
  | _ => True
  end.
Proof.
  induction images as [|u rest IH]; intros idx ps Hneg; cbn [process_loop].
  - cbn. lia.
  - rewrite snd_bind. destruct (snd (process_item _ _ _ idx u ps)) as [s|] eqn:E; [|exact I].
    pose proof (process_item_negative _ _ _ _ _ _ _ Hneg E) as Hs.
    destruct s as [p|p|p]; [|contradiction|exact I].
    destruct Hs as [Hn Hc]. specialize (IH (S idx) p Hn).
    destruct (snd (process_loop _ _ _ _ rest p)) as [[q|q]|]; auto. cbn [length]. lia.
Qed.



Lemma process_loop_subseq max up env images :
  forall idx ps,
  match snd (process_loop max up env idx images ps) with
  | Some o => subseq (needs_exif (ps_state (outcome_state o))) (needs_exif (ps_state ps))
  | None => True
  end.
Proof.
  induction images as [|u rest IH]; intros idx ps; cbn [process_loop].
  - cbn. apply subseq_refl.
  - rewrite snd_bind. destruct (snd (process_item _ _ _ idx u ps)) as [s|] eqn:E; [|exact I].
    destruct (process_item_shape _ _ _ _ _ _ _ E) as (q & _ & Hsub & _ & _ & [[-> _]|Hf]).
    + specialize (IH (S idx) q). destruct (snd (process_loop _ _ _ _ rest q)); [|exact I].
      eapply subseq_trans; eassumption.
    + destruct (finish_item_shape _ _ _ _ Hf) as [[-> _]|[(-> & _)|(p & -> & _ & Hr)]];
        [exact Hsub|exact Hsub|].
      apply rate_limit_sleep_next_edits in Hr as (_ & Hst & _).
      specialize (IH (S idx) p). destruct (snd (process_loop _ _ _ _ rest p)); [|exact I].
      rewrite Hst in IH. eapply subseq_trans; eassumption.
Qed.

Lemma rate_limit_sleep_events (P : Event -> Prop) max j ps :
  (forall ms, P (ESleep ms)) -> Forall P (fst (rate_limit_sleep max j ps)).
Proof.
  intros HP. unfold rate_limit_sleep. rewrite fst_bind.
  destruct (max <=? _)%Z; [destruct (filter _ _)|]; cbn;
    repeat constructor; apply HP.
Qed.

Lemma finish_item_events (P : Event -> Prop) max e ps :
  (forall ms, P (ESleep ms)) -> Forall P (fst (finish_item max e ps)).
Proof.
  intros HP. unfold finish_item, after_item.
  destruct (ps_edits_count ps =? 0)%Z; [cbn; constructor|].
  rewrite !fst_bind, ?snd_bind. repeat (apply Forall_app; split);
    try (apply rate_limit_sleep_events; exact HP);
    destruct (snd (rate_limit_sleep _ _ _)) as [[p|]|]; cbn; repeat constructor.
Qed.

Lemma process_item_events max up env idx u ps :
  Forall (upload_of up u) (fst (process_item max up env idx u ps)).
Proof.
  assert (HS : forall ms, upload_of up u (ESleep ms)) by (intros; exact I).
  unfold process_item, save.
  destruct (has_coords u) eqn:Hc, (has_exif_gps u) eqn:Hg; cbn [negb];
    try (destruct (list_remove u _);
         [cbn; repeat constructor | apply finish_item_events; exact HS]).
  destruct (e_download (env idx)) eqn:Ed.
  - destruct (valid_coordinates (lat u) (lon u)) eqn:Hv, (e_exif_ok (env idx)), up eqn:Hup,
      (e_upload_ok (env idx)); cbn [negb];
      repeat first [progress cbn [fst snd emit ret] | rewrite fst_bind | rewrite snd_bind];
      repeat (apply Forall_app; split);
      try (apply finish_item_events; exact HS);
      repeat constructor; cbn; auto.
  - rewrite fst_bind; cbn [fst snd emit]. constructor; [exact I|]. apply finish_item_events; exact HS.
  - apply finish_item_events; exact HS.
Qed.

Lemma upload_from_incl up l l' ev : incl l l' -> upload_from up l ev -> upload_from up l' ev.
Proof.
  intros Hi. destruct ev; cbn; auto.
  intros (Hup & u & Hin & Hr). split; [exact Hup|]. exists u. split; [apply Hi; exact Hin|exact Hr].
Qed.

Lemma process_loop_events max up env images :
  forall idx ps, Forall (upload_from up images) (fst (process_loop max up env idx images ps)).
Proof.
  induction images as [|u rest IH]; intros idx ps; cbn [process_loop].
  - cbn. constructor.
  - rewrite fst_bind. apply Forall_app; split.
    + eapply Forall_impl; [|apply (process_item_events max up env idx u ps)].
      intros ev. destruct ev; cbn; auto.
      intros (Hup & Ht & Hr). split; [exact Hup|]. exists u. split; [left; reflexivity|auto].
    + destruct (snd (process_item _ _ _ idx u ps)) as [[p|p|p]|]; cbn; try constructor.
      eapply Forall_impl; [|apply IH]. intros ev. apply upload_from_incl.
      intros x Hx. right. exact Hx.
Qed.

(* ------------------------------------------------------------------ *)
(** ** Listing and scanning *)

Lemma chunks_fuel_spec {A} (n : nat) : (1 <= n)%nat ->
  forall fuel (l : list A), (length l <= fuel)%nat ->
  concat (chunks_fuel fuel n l) = l /\
  Forall (fun c => (1 <= length c <= n)%nat) (chunks_fuel fuel n l).
Proof.
  intros Hn. induction fuel as [|f IH]; intros l Hl.
  - destruct l; [split; [reflexivity|constructor]|cbn in Hl; lia].
  - destruct l as [|x l']; [split; [reflexivity|constructor]|].
    cbn [chunks_fuel].
    destruct (IH (skipn n (x :: l'))) as [Hc Hf].
    { rewrite length_skipn. cbn [length] in *. lia. }
    split.
    + cbn [concat]. rewrite Hc. apply firstn_skipn.
    + constructor; [|exact Hf]. rewrite length_firstn. cbn [length]. lia.
Qed.

Lemma chunks_spec {A} (n : nat) (l : list A) : (1 <= n)%nat ->
  concat (chunks n l) = l /\ Forall (fun c => (1 <= length c <= n)%nat) (chunks n l).
Proof. intros Hn. unfold chunks. apply chunks_fuel_spec; [exact Hn|lia]. Qed.

Lemma fetch_batches_eq api bs :
  fetch_batches api bs = (map EApiPages bs, Some (flat_map (fun b => map page_to_upload (api_pages api b)) bs)).
Proof.
  induction bs as [|b bs IH]; [reflexivity|].
  cbn [fetch_batches]. unfold fetch_pages_batch. rewrite IH. cbn. now rewrite app_nil_r.
Qed.

Lemma requested_titles_app a b : requested_titles (a ++ b) = requested_titles a ++ requested_titles b.
Proof. unfold requested_titles. apply flat_map_app. Qed.

Lemma requested_titles_pages bs : requested_titles (map EApiPages bs) = concat bs.
Proof. induction bs as [|b bs IH]; [reflexivity|]. cbn. rewrite <- IH. reflexivity. Qed.

Lemma mem_false t l : mem t l = false -> ~ In t l.
Proof.
  unfold mem. intros H Hin. apply Bool.not_true_iff_false in H. apply H.
  apply existsb_exists. exists t. split; [exact Hin|apply String.eqb_refl].
Qed.

Lemma mem_true t l : mem t l = true -> In t l.
Proof.
  unfold mem. intros H. apply existsb_exists in H as (x & Hx & E).
  apply String.eqb_eq in E. subst. exact Hx.
Qed.

Lemma list_uploads_loop_inv api fuel : forall params seen results,
  let r := list_uploads_loop api fuel params seen results in
  Forall listing_event (fst r) /\ Forall batch_ok (fst r) /\
  Forall (fun t => ~ In t seen) (requested_titles (fst r)) /\
  match snd r with Some (_, c) => c = None | None => True end.
Proof.
  induction fuel as [|f IH]; intros params seen results; cbv zeta.
  - cbn. repeat split; constructor.
  - cbn [list_uploads_loop]. rewrite fst_bind, snd_bind. cbn [fst snd emit].
    destruct (api_log api params) as [data|].
    + rewrite fetch_batches_eq, fst_bind, snd_bind. cbn [fst snd].
      set (nt := filter (fun t => negb (mem t seen)) (event_titles (lr_titles data))).
      destruct (chunks_spec 50 nt) as [Hcat Hsz]; [lia|].
      assert (Hnt : Forall (fun t => ~ In t seen) nt).
      { apply Forall_forall. intros t Ht. unfold nt in Ht. apply filter_In in Ht as [_ Ht].
        apply mem_false. now apply negb_true_iff. }
      assert (Hrest : forall tr : list Event,
                Forall listing_event tr /\ Forall batch_ok tr /\
                Forall (fun t => ~ In t (seen ++ nt)) (requested_titles tr) ->
                Forall listing_event (EApiLog params :: map EApiPages (chunks 50 nt) ++ tr) /\
                Forall batch_ok (EApiLog params :: map EApiPages (chunks 50 nt) ++ tr) /\
                Forall (fun t => ~ In t seen)
                  (requested_titles (EApiLog params :: map EApiPages (chunks 50 nt) ++ tr))).
      { intros tr (H1 & H2 & H3). repeat split.
        - constructor; [exact I|]. apply Forall_app; split; [|exact H1].
          apply Forall_map. apply Forall_forall. intros; exact I.
        - constructor; [exact I|]. apply Forall_app; split; [|exact H2].
          apply Forall_map. exact Hsz.
        - change (requested_titles (EApiLog params :: ?x)) with (requested_titles x).
          rewrite requested_titles_app, requested_titles_pages, Hcat.
          apply Forall_app; split; [exact Hnt|].
          eapply Forall_impl; [|exact H3]. intros t Ht Hin. apply Ht. apply in_or_app. now left. }
      destruct (lr_continue data) as [c|].
      * destruct (IH (dupdate params c) (seen ++ nt)
                     (results ++ flat_map (fun b => map page_to_upload (api_pages api b)) (chunks 50 nt)))
          as (H1 & H2 & H3 & H4).
        destruct (Hrest _ (conj H1 (conj H2 H3))) as (G1 & G2 & G3).
        split; [exact G1|split; [exact G2|split; [exact G3|exact H4]]].
      * cbn [fst snd ret]. rewrite app_nil_r.
        destruct (Hrest [] (conj (Forall_nil _) (conj (Forall_nil _) (Forall_nil _)))) as (G1 & G2 & G3).
        rewrite app_nil_r in G1, G2, G3. split; [exact G1|split; [exact G2|split; [exact G3|reflexivity]]].
    + cbn. repeat split; repeat constructor.
Qed.

Lemma split_members_spec d md ms : forall seen subcats titles sc ts seen',
  split_members d md ms seen subcats titles = (sc, ts, seen') ->
  exists new subs, ts = titles ++ new /\ seen' = seen ++ new /\ sc = subcats ++ subs /\
    Forall (fun t => ~ In t seen) new /\ NoDup new /\ ((md <= d)%Z -> subs = []).
Proof.
  induction ms as [|m ms IH]; intros seen subcats titles sc ts seen' E; cbn [split_members] in E.
  - injection E as <- <- <-. exists [], []. rewrite !app_nil_r.
    repeat split; try constructor. 
  - destruct ((cm_ns m =? 14)%Z && (d <? md)%Z) eqn:Hsub.
    + apply IH in E as (new & subs & -> & -> & -> & Hn & Hd & Hs).
      exists new, (replace_first "Category:" "" (cm_title m) :: subs).
      rewrite <- app_assoc. repeat split; try assumption.
      intros Hle. apply andb_true_iff in Hsub as [_ Hlt]. apply Z.ltb_lt in Hlt. lia.
    + destruct ((cm_ns m =? 6)%Z && negb (mem (cm_title m) seen)) eqn:Hf.
      * apply IH in E as (new & subs & -> & -> & -> & Hn & Hd & Hs).
        apply andb_true_iff in Hf as [_ Hm]. apply negb_true_iff, mem_false in Hm.
        exists (cm_title m :: new), subs. rewrite <- !app_assoc. cbn [app].
        repeat split; try assumption.
        -- constructor; [exact Hm|]. eapply Forall_impl; [|exact Hn].
           intros t Ht Hin. apply Ht. apply in_or_app. now left.
        -- constructor; [|exact Hd]. intros Hin.
           rewrite Forall_forall in Hn. apply (Hn _ Hin). apply in_or_app. right. now left.
      * exact (IH _ _ _ _ _ _ E).
Qed.

Lemma list_cat_loop_inv api fuel : forall md queue cur seen results,
  let tr := fst (list_cat_loop api fuel md queue cur seen results) in
  Forall listing_event tr /\ Forall batch_ok tr /\
  Forall (fun t => ~ In t seen) (requested_titles tr) /\ NoDup (requested_titles tr).
Proof.
  induction fuel as [|f IH]; intros md queue cur seen results; cbv zeta.
  - cbn. repeat split; constructor.
  - cbn [list_cat_loop]. destruct cur as [[[cat depth] tok]|].
    + rewrite fst_bind. cbn [fst snd emit].
      destruct (api_cat api (cat_params cat tok)) as [data|].
      * destruct (split_members depth md (cr_members data) seen [] []) as [[sc ts] seen'] eqn:Es.
        apply split_members_spec in Es as (new & subs & -> & -> & _ & Hn & Hd & _).
        cbn [app] in *.
        rewrite fetch_batches_eq, fst_bind. cbn [snd].
        destruct (chunks_spec 50 new) as [Hcat Hsz]; [lia|].
        assert (Hrest : forall tr : list Event,
                  Forall listing_event tr /\ Forall batch_ok tr /\
                  Forall (fun t => ~ In t (seen ++ new)) (requested_titles tr) /\
                  NoDup (requested_titles tr) ->
                  let tr' := EApiCat (cat_params cat tok) :: map EApiPages (chunks 50 new) ++ tr in
                  Forall listing_event tr' /\ Forall batch_ok tr' /\
                  Forall (fun t => ~ In t seen) (requested_titles tr') /\
                  NoDup (requested_titles tr')).
        { intros tr (H1 & H2 & H3 & H4). cbv zeta.
          change (requested_titles (EApiCat (cat_params cat tok) :: ?x)) with (requested_titles x).
          rewrite requested_titles_app, requested_titles_pages, Hcat.
          split; [|split; [|split]].
          - constructor; [exact I|]. apply Forall_app; split; [|exact H1].
            apply Forall_map. apply Forall_forall. intros; exact I.
          - constructor; [exact I|]. apply Forall_app; split; [|exact H2].
            apply Forall_map. exact Hsz.
          - apply Forall_app; split; [exact Hn|].
            eapply Forall_impl; [|exact H3]. intros t Ht Hin. apply Ht. apply in_or_app. now left.
          - apply NoDup_app; [exact Hd|exact H4|]. intros t Ht Hin.
            rewrite Forall_forall in H3. apply (H3 _ Hin). apply in_or_app. now right. }
        destruct (cr_continue data) as [c|]; apply Hrest; apply IH.
      * 
        destruct (IH md queue None seen results) as (H1 & H2 & H3 & H4).
        split; [|split; [|split]]; try (constructor; [exact I|]); assumption.
    + destruct queue as [|[cat depth] queue'].
      * cbn. repeat split; constructor.
      * apply IH.
Qed.

Lemma list_cat_loop_root api category fuel : forall md queue cur seen results,
  (md <= 0)%Z ->
  Forall (fun e => fst e = category /\ (0 <= snd e)%Z) queue ->
  match cur with Some (c, d, _) => c = category /\ (0 <= d)%Z | None => True end ->
  Forall (cat_request_in [category]) (fst (list_cat_loop api fuel md queue cur seen results)).
Proof.
  induction fuel as [|f IH]; intros md queue cur seen results Hmd Hq Hc.
  - constructor.
  - cbn [list_cat_loop]. destruct cur as [[[cat depth] tok]|].
    + destruct Hc as [-> Hd0].
      rewrite fst_bind. cbn [fst snd emit].
      constructor; [exists category, tok; split; [now left|reflexivity]|].
      destruct (api_cat api (cat_params category tok)) as [data|]; [|now apply IH].
      destruct (split_members depth md (cr_members data) seen [] []) as [[sc ts] seen'] eqn:Es.
      apply split_members_spec in Es as (new & subs & _ & _ & -> & _ & _ & Hs).
      rewrite Hs by lia. cbn [app map]. rewrite app_nil_r.
      rewrite fetch_batches_eq, fst_bind. cbn [snd]. apply Forall_app. split.
      * apply Forall_map. apply Forall_forall. intros; exact I.
      * destruct (cr_continue data) as [c|]; apply IH; auto.
    + destruct queue as [|[cat depth] queue']; [constructor|].
      inversion Hq as [|? ? [Hc0 Hd0] Hq']; subst. apply IH; auto.
Qed.

Lemma route_step af st seen u st1 seen1 :
  route af (st, seen) u = (st1, seen1) ->
  needs_exif st1 = needs_exif st ++ (if routes_to_exif af u then [u] else []) /\
  needs_template st1 = needs_template st ++ (if routes_to_template af u then [title u] else []) /\
  scan_continue st1 = scan_continue st /\
  seen1 = seen ++ (if passes_filters af u then [title u] else []).
Proof.
  unfold route, routes_to_exif, routes_to_template, passes_filters.
  destruct (is_jpeg_title (title u)); cbn [negb andb].
  - destruct (opt_str_truthy af && opt_str_truthy (author u) && _); cbn [negb andb].
    + intros E; injection E as <- <-. rewrite !app_nil_r. repeat split.
    + intros E; injection E as <- <-.
      destruct (has_coords u), (has_exif_gps u); cbn; rewrite ?app_nil_r; repeat split.
  - intros E; injection E as <- <-. rewrite !app_nil_r. repeat split.
Qed.

Lemma route_fold af ups : forall st seen,
  let r := fold_left (route af) ups (st, seen) in
  needs_exif (fst r) = needs_exif st ++ filter (routes_to_exif af) ups /\
  needs_template (fst r) = needs_template st ++ map title (filter (routes_to_template af) ups) /\
  scan_continue (fst r) = scan_continue st /\
  snd r = seen ++ map title (filter (passes_filters af) ups).
Proof.
  induction ups as [|u ups IH]; intros st seen; cbv zeta.
  - cbn. rewrite !app_nil_r. repeat split.
  - cbn [fold_left]. destruct (route af (st, seen) u) as [st1 seen1] eqn:Er.
    apply route_step in Er as (E1 & E2 & E3 & E4).
    destruct (IH st1 seen1) as (H1 & H2 & H3 & H4).
    rewrite H1, H2, H3, H4, E1, E2, E3, E4. cbn [filter].
    destruct (routes_to_exif af u), (routes_to_template af u), (passes_filters af u);
      cbn [map app]; rewrite <- ?app_assoc; repeat split.
Qed.

Lemma listing_page_spec api tu cat md f seen cont :
  Forall listing_event
    (fst (if opt_str_truthy cat
          then ups <- list_category_files api f (match cat with Some c => c | None => "" end) md seen ;;
               ret (ups, None)
          else list_uploads api f tu cont seen)) /\
  match snd (if opt_str_truthy cat
             then ups <- list_category_files api f (match cat with Some c => c | None => "" end) md seen ;;
                  ret (ups, None)
             else list_uploads api f tu cont seen) with
  | Some (_, c) => c = None | None => True end.
Proof.
  destruct (opt_str_truthy cat).
  - unfold list_category_files.
    destruct (list_cat_loop_inv api f md [(match cat with Some c => c | None => "" end, 0%Z)] None seen [])
      as (H1 & _).
    rewrite fst_bind, snd_bind.
    destruct (list_cat_loop api f md _ None seen []) as [tr [ups|]]; cbn [fst snd ret] in *.
    + rewrite app_nil_r. split; [exact H1|reflexivity].
    + rewrite app_nil_r. split; [exact H1|exact I].
  - unfold list_uploads. destruct (list_uploads_loop_inv api f
      (match cont with
       | Some c => if cont_truthy cont then dupdate (log_base_params tu) c else log_base_params tu
       | None => log_base_params tu end) seen []) as (H1 & _ & _ & H4).
    split; assumption.
Qed.

Lemma scan_user_uploads_shape api tu cat md af fuel state st :
  snd (scan_user_uploads api tu cat md af fuel state) = Some st ->
  exists pre ups,
    Forall listing_event pre /\
    ((fst (scan_user_uploads api tu cat md af fuel state) = [] /\ ups = [] /\
      cont_truthy (scan_continue st) = false) \/
     (fst (scan_user_uploads api tu cat md af fuel state) = pre ++ [ESave st] /\
      scan_continue st = None)) /\
    needs_exif st = filter has_coords (needs_exif state) ++ filter (routes_to_exif af) ups /\
    needs_template st = needs_template state ++ map title (filter (routes_to_template af) ups).
Proof.
  unfold scan_user_uploads. cbv zeta. intros H.
  destruct (match needs_exif (set_needs_exif state (filter has_coords (needs_exif state))) with
            | [] => false | _ :: _ => true end &&
            match needs_template (set_needs_exif state (filter has_coords (needs_exif state))) with
            | [] => false | _ :: _ => true end && negb (cont_truthy (scan_continue state))) eqn:Ec.
  - cbn in H. injection H as <-. exists [], []. split; [constructor|].
    split; [left|]. 
    + split; [reflexivity|split; [reflexivity|]].
      apply andb_true_iff in Ec as [_ Ec]. apply negb_true_iff in Ec. exact Ec.
    + cbn. rewrite !app_nil_r. split; reflexivity.
  - destruct fuel as [|f]; [discriminate H|].
    cbn [scan_loop] in H |- *. rewrite snd_bind in H. rewrite fst_bind.
    pose proof (listing_page_spec api tu cat md f
                  (map title (needs_exif state) ++ needs_template state) (scan_continue state))
      as HP.
    match type of H with (match snd ?pg with _ => _ end = _) =>
      change (Forall listing_event (fst pg) /\
              match snd pg with Some (_, c) => c = None | None => True end) in HP;
      destruct pg as [tr [[ups c]|]]; [|discriminate H]
    end.
    destruct HP as [Hl Hc].
    cbn [fst snd] in Hl, Hc, H |- *. subst c.
    destruct (fold_left (route af) ups
                (set_needs_exif state (filter has_coords (needs_exif state)),
                 map title (needs_exif state) ++ needs_template state)) as [st2 seen2] eqn:Ef.
    pose proof (route_fold af ups (set_needs_exif state (filter has_coords (needs_exif state)))
                  (map title (needs_exif state) ++ needs_template state)) as HR.
    cbv zeta in HR. rewrite Ef in HR. cbn [fst snd] in HR. destruct HR as (E1 & E2 & _ & _).
    cbn in H. injection H as <-.
    exists tr, ups. split; [exact Hl|]. split; [right; split; reflexivity|].
    cbn. rewrite E1, E2. split; reflexivity.
Qed.

(* ------------------------------------------------------------------ *)
(** ** [save_state] and [load_state] *)

Lemma save_state_success encode w cands path state tmp :
  choose_tmp (w_files w) (p_dir path) cands = Some tmp ->
  tmp <> path ->
  let w' := run_ops w (save_state_ops encode w cands path state None) in
  flookup (w_files w') path = Some (mkFileC (serialized encode state) (serialized encode state)) /\
  (forall q, q <> path -> flookup (w_files w') q = flookup (w_files w) q).
Proof.
  intros Hch Hneq. cbv zeta.
  destruct (choose_tmp_spec _ _ _ _ Hch) as (_ & _ & Hfresh).
  assert (Htp : path_eqb tmp path = false) by (apply path_eqb_neq; exact Hneq).
  assert (Hpt : path_eqb path tmp = false) by (rewrite path_eqb_sym; exact Htp).
  unfold save_state_ops. rewrite Hch. destruct w as [fs b]. cbn [w_files] in *.
  replace (OCreate tmp :: (map OWrite (encode state) ++ [OFlush tmp; OFsync tmp; OReplace tmp path]) ++ [OClose tmp])
    with ([OCreate tmp] ++ map OWrite (encode state) ++ [OFlush tmp; OFsync tmp; OReplace tmp path; OClose tmp])
    by (cbn; now rewrite <- app_assoc).
  set (ser := serialized encode state).
  assert (Ew : run_ops (mkWorld fs b)
                 ([OCreate tmp] ++ map OWrite (encode state) ++
                  [OFlush tmp; OFsync tmp; OReplace tmp path; OClose tmp])
               = mkWorld (fset (fdelete (fset (fset (fset fs tmp (mkFileC "" "")) tmp (mkFileC ser ""))
                                              tmp (mkFileC ser ser)) tmp) path (mkFileC ser ser)) "").
  { rewrite !run_ops_app. unfold run_ops at 3. cbn [fold_left run_op w_files].
    rewrite run_ops_writes. unfold run_ops. cbn [fold_left run_op].
    unfold flush_to. cbn [w_files w_buf]. rewrite flookup_fset_same. cbn [w_files w_buf f_vol f_dur].
    rewrite flookup_fset_same. cbn [w_files w_buf f_vol f_dur].
    rewrite flookup_fset_same. cbn [w_files w_buf f_vol f_dur].
    rewrite flookup_fset_other by exact Htp. rewrite flookup_fdelete_same. reflexivity. }
  rewrite Ew. cbn [w_files]. split.
  - exact (flookup_fset_same _ _ _).
  - intros q Hq. rewrite flookup_fset_other by (now apply path_eqb_neq).
    destruct (path_eqb q tmp) eqn:Eq.
    + apply path_eqb_eq in Eq. subst q. rewrite flookup_fdelete_same. now rewrite Hfresh.
    + rewrite flookup_fdelete_other by exact Eq.
      rewrite !flookup_fset_other by exact Eq. reflexivity.
Qed.

Lemma choose_tmp_not_dest fs path cands tmp :
  choose_tmp fs (p_dir path) cands = Some tmp ->
  flookup fs path <> None \/ ~ In (p_name path) cands -> tmp <> path.
Proof.
  intros Hch Hdest ->. destruct (choose_tmp_spec _ _ _ _ Hch) as (_ & Hin & Hfresh).
  destruct Hdest as [H|H]; [exact (H Hfresh)|exact (H Hin)].
Qed.

Lemma ScanState_roundtrip s : ScanState_from_dict (ScanState_to_dict s) = Some s.
Proof.
  destruct s as [ne nt sc]. unfold ScanState_from_dict, ScanState_to_dict. cbn -[mapM map].
  rewrite mapM_upload_roundtrip, mapM_str_roundtrip.
  destruct sc; reflexivity.
Qed.

Lemma save_then_load (json_loads : list Z -> option pyval) encode w cands path state ts tmp :
  choose_tmp (w_files w) (p_dir path) cands = Some tmp ->
  flookup (w_files w) path <> None \/ ~ In (p_name path) cands ->
  (exists text, utf8_decode (bytes_of (serialized encode state)) = Some text /\
                json_loads text = Some (ScanState_to_dict state)) ->
  let w' := run_ops w (save_state_ops encode w cands path state None) in
  load_state json_loads w' path ts = Loaded state w' false.
Proof.
  intros Hch Hdest (text & Hdec & Hjs). cbv zeta.
  destruct (save_state_success encode w cands path state tmp Hch
              (choose_tmp_not_dest _ _ _ _ Hch Hdest)) as [Hp _].
  unfold load_state. rewrite Hp. cbn [f_vol]. rewrite Hdec, Hjs.
  cbn [truthy]. unfold ScanState_to_dict at 1. rewrite ScanState_roundtrip. reflexivity.
Qed.

Lemma run_op_keeps w op p :
  (forall s d, op <> OReplace s d) -> flookup (w_files w) p <> None ->
  flookup (w_files (run_op w op)) p <> None.
Proof.
  intros Hop Hp. destruct op as [q|c|q|q|s d|q]; unfold run_op.
  - cbn [w_files]. destruct (path_eqb p q) eqn:E.
    + apply path_eqb_eq in E. subst. now rewrite flookup_fset_same.
    + now rewrite flookup_fset_other.
  - exact Hp.
  - unfold flush_to. destruct (flookup (w_files w) q); [|exact Hp]. cbn [w_files].
    destruct (path_eqb p q) eqn:E.
    + apply path_eqb_eq in E. subst. now rewrite flookup_fset_same.
    + now rewrite flookup_fset_other.
  - destruct (flookup (w_files w) q); [|exact Hp]. cbn [w_files].
    destruct (path_eqb p q) eqn:E.
    + apply path_eqb_eq in E. subst. now rewrite flookup_fset_same.
    + now rewrite flookup_fset_other.
  - exfalso. exact (Hop s d eq_refl).
  - unfold flush_to. destruct (flookup (w_files w) q); [|exact Hp]. cbn [w_files].
    destruct (path_eqb p q) eqn:E.
    + apply path_eqb_eq in E. subst. now rewrite flookup_fset_same.
    + now rewrite flookup_fset_other.
Qed.

Lemma run_ops_keeps ops : forall w p,
  Forall (fun op => forall s d, op <> OReplace s d) ops -> flookup (w_files w) p <> None ->
  flookup (w_files (run_ops w ops)) p <> None.
Proof.
  induction ops as [|op ops IH]; intros w p H Hp; [exact Hp|].
  inversion H; subst. unfold run_ops; cbn [fold_left]. fold (run_ops (run_op w op) ops).
  apply IH; [assumption|]. now apply run_op_keeps.
Qed.

Lemma save_state_failure_keeps_tmp encode w cands path state tmp k :
  choose_tmp (w_files w) (p_dir path) cands = Some tmp ->
  flookup (w_files w) path <> None \/ ~ In (p_name path) cands ->
  (k <= length (encode state) + 2)%nat ->
  let w' := run_ops w (save_state_ops encode w cands path state (Some k)) in
  flookup (w_files w') tmp <> None /\ flookup (w_files w') path = flookup (w_files w) path.
Proof.
  intros Hch Hdest Hk. cbv zeta.
  pose proof (choose_tmp_not_dest _ _ _ _ Hch Hdest) as Hneq.
  assert (Htp : path_eqb tmp path = false) by (apply path_eqb_neq; exact Hneq).
  unfold save_state_ops. rewrite Hch.
  set (pre := map OWrite (encode state) ++ [OFlush tmp; OFsync tmp]).
  replace (map OWrite (encode state) ++ [OFlush tmp; OFsync tmp; OReplace tmp path])
    with (pre ++ [OReplace tmp path]) by (unfold pre; now rewrite <- app_assoc).
  rewrite firstn_app. replace (k - length pre)%nat with 0%nat
    by (unfold pre; rewrite length_app, length_map; cbn [length]; lia).
  cbn [firstn]. rewrite app_nil_r.
  assert (Hpre : Forall (fun op => touches path op = false /\ forall s d, op <> OReplace s d) pre).
  { unfold pre. apply Forall_app. split.
    - apply Forall_forall. intros op Hop. apply in_map_iff in Hop as (c & <- & _).
      split; [reflexivity|discriminate].
    - repeat constructor; cbn; try exact Htp; discriminate. }
  change (OCreate tmp :: firstn k pre ++ [OClose tmp]) with ([OCreate tmp] ++ firstn k pre ++ [OClose tmp]).
  split.
  - rewrite !run_ops_app. apply run_ops_keeps; [constructor; [discriminate|constructor]|].
    apply run_ops_keeps.
    + eapply Forall_impl; [|apply Forall_firstn; exact Hpre]. intros op [_ H]; exact H.
    + unfold run_ops; cbn [fold_left run_op w_files]. rewrite flookup_fset_same. discriminate.
  - apply run_ops_untouched. apply Forall_app. split; [constructor; [cbn; exact Htp|constructor]|].
    apply Forall_app. split; [|constructor; [cbn; exact Htp|constructor]].
    eapply Forall_impl; [|apply Forall_firstn; exact Hpre]. intros op [H _]; exact H.
Qed.

(* ------------------------------------------------------------------ *)
(** ** GPS conversion, coordinates lookup, download *)

Lemma abs_opp (x : float) : PrimFloat.abs (- x)%float = PrimFloat.abs x.
Proof.
  apply Prim2SF_inj. rewrite !abs_spec, opp_spec.
  destruct (Prim2SF x); reflexivity.
Qed.

Lemma decimal_to_dms_opp (x : float) : decimal_to_dms (- x)%float = decimal_to_dms x.
Proof. unfold decimal_to_dms. now rewrite abs_opp. Qed.

Lemma py_int_abs_nonneg (x : float) d : py_int (PrimFloat.abs x) = Some d -> (0 <= d)%Z.
Proof.
  unfold py_int. rewrite abs_spec. destruct (Prim2SF x) as [s|s| |s m e]; unfold SFabs;
    cbv beta iota zeta; intros H; try discriminate; injection H as <-; [lia|].
  destruct (0 <=? e)%Z eqn:Ee.
  - pose proof (Z.pow_nonneg 2 e ltac:(lia)). change (0 <= Z.pos m * 2 ^ e)%Z. nia.
  - change (0 <= Z.pos m / 2 ^ (- e))%Z. apply Z.leb_gt in Ee. pose proof (Z.pow_pos_nonneg 2 (- e) ltac:(lia)). pose proof (Pos2Z.is_pos m).
    apply Z.div_pos; lia.
Qed.

Lemma decimal_to_dms_nonneg (x : float) d m s :
  decimal_to_dms x = Some (d, m, s) -> (0 <= d)%Z.
Proof.
  unfold decimal_to_dms. destruct (py_int (PrimFloat.abs x)) as [d'|] eqn:E; [|discriminate].
  destruct (float_of_int d') as [fd|]; [|discriminate].
  destruct (py_int ((PrimFloat.abs x - fd) * 60)%float) as [mi|]; [|discriminate].
  destruct (float_of_int mi); [|discriminate].
  intros H; injection H as <- _ _. exact (py_int_abs_nonneg _ _ E).
Qed.

Lemma gps_ifd_hemisphere (lat lng : float) (g : GpsIfd) :
  gps_ifd lat lng = Some g ->
  gps_latitude_ref g = "N" /\ gps_longitude_ref g = "E" /\ gps_ifd (- lat)%float (- lng)%float = Some g.
Proof.
  unfold gps_ifd. rewrite !decimal_to_dms_opp.
  destruct (decimal_to_dms lat) as [[[ad am] as_]|] eqn:Ea; [|discriminate].
  destruct (decimal_to_dms lng) as [[[gd gm] gs]|] eqn:Eg; [|discriminate].
  apply decimal_to_dms_nonneg in Ea. apply decimal_to_dms_nonneg in Eg.
  apply Z.leb_le in Ea, Eg. rewrite Ea, Eg.
  destruct (py_int _); [|discriminate]. destruct (py_int _); [|discriminate].
  intros H. injection H as <-. cbn. auto.
Qed.


Lemma gps_entry_dict name v : gps_entry name v = true -> exists d, v = PDict d.
Proof. destruct v; cbn; try discriminate. intros _. eexists; reflexivity. Qed.

Lemma lat_lon_values_none name l :
  lat_lon_values name l = None <->
  exists v, In v l /\ gps_entry name v = true /\ entry_value v = None.
Proof.
  induction l as [|v l IH]; cbn [lat_lon_values].
  - split; [discriminate|]. intros (v & [] & _).
  - destruct (gps_entry name v) eqn:Eg.
    + destruct (gps_entry_dict _ _ Eg) as [d ->]. cbn [entry_value] in *.
      destruct (dget d "value") as [x|] eqn:Ev.
      * destruct (lat_lon_values name l) as [xs|] eqn:El.
        -- split; [discriminate|]. intros (w & [<-|Hw] & Hg & Hw').
           ++ cbn in Hw'. congruence.
           ++ assert (H : Some xs = None) by (apply IH; exists w; auto). discriminate.
        -- split; [intros _|reflexivity]. destruct (proj1 IH eq_refl) as (w & Hw & Hg & Hw').
           exists w. split; [now right|auto].
      * split; [intros _|reflexivity]. exists (PDict d). split; [now left|]. auto.
    + rewrite IH. split.
      * intros (w & Hw & Hg & Hw'). exists w. split; [now right|auto].
      * intros (w & [<-|Hw] & Hg & Hw'); [congruence|]. exists w. auto.
Qed.

Lemma lat_lon_values_some name l xs :
  lat_lon_values name l = Some xs ->
  match find (gps_entry name) l with
  | None => xs = []
  | Some v => exists x rest, entry_value v = Some x /\ xs = x :: rest
  end.
Proof.
  revert xs. induction l as [|v l IH]; intros xs; cbn [lat_lon_values find].
  - intros H; injection H as <-. reflexivity.
  - destruct (gps_entry name v) eqn:Eg.
    + destruct (gps_entry_dict _ _ Eg) as [d ->]. cbn [entry_value].
      destruct (dget d "value") as [x|]; [|discriminate].
      destruct (lat_lon_values name l) as [ys|]; [|discriminate].
      intros H; injection H as <-. exists x, ys. auto.
    + apply IH.
Qed.

Lemma get_lat_lon_gps_spec (f : string -> option float) (name : string) (l : list pyval) :
  (get_lat_lon_gps f name l = None <->
   exists v, In v l /\ gps_entry name v = true /\ entry_value v = None) /\
  (get_lat_lon_gps f name l = None \/
   get_lat_lon_gps f name l =
     Some (match find (gps_entry name) l with
           | Some v => match entry_value v with Some x => py_float f x | None => None end
           | None => None
           end)).
Proof.
  unfold get_lat_lon_gps. split.
  - rewrite <- lat_lon_values_none.
    destruct (lat_lon_values name l) as [[|x xs]|]; split; congruence.
  - destruct (lat_lon_values name l) as [xs|] eqn:E; [right|left; reflexivity].
    apply lat_lon_values_some in E.
    destruct (find (gps_entry name) l) as [v|].
    + destruct E as (x & rest & Ev & ->). now rewrite Ev.
    + now subst xs.
Qed.

Lemma get_lat_lon_gps_found (f : string -> option float) (name : string) (l : list pyval) :
  (exists y, get_lat_lon_gps f name l = Some (Some y)) <->
  (forall v, In v l -> gps_entry name v = true -> entry_value v <> None) /\
  exists v x y, find (gps_entry name) l = Some v /\ entry_value v = Some x /\ py_float f x = Some y.
Proof.
  destruct (get_lat_lon_gps_spec f name l) as [H1 H2]. split.
  - intros [y Hy]. split.
    + intros v Hv Hg He. assert (Hn : get_lat_lon_gps f name l = None) by (apply H1; eauto).
      congruence.
    + destruct H2 as [H2|H2]; [congruence|]. rewrite Hy in H2. injection H2 as H2.
      destruct (find (gps_entry name) l) as [v|] eqn:Ef; [|discriminate].
      destruct (entry_value v) as [x|] eqn:Ev; [|discriminate].
      exists v, x, y. split; [reflexivity|split; [exact Ev|symmetry; exact H2]].
  - intros [Hall (v & x & y & Hf & He & Hp)]. exists y.
    destruct H2 as [H2|H2].
    + exfalso. apply H1 in H2 as (w & Hw & Hg & Hw'). exact (Hall w Hw Hg Hw').
    + rewrite H2, Hf, He, Hp. reflexivity.
Qed.

Lemma download_file_none dir w u net w' :
  download_file dir w u net = (None, w') ->
  opt_str_truthy (url u) = true ->
  flookup (w_files w') (mkFPath dir (replace_slash (title u))) = None \/
  exists r k, net = NetResp r /\ rs_fail_after r = Some k /\
    flookup (w_files w') (mkFPath dir (replace_slash (title u)))
      = Some (mkFileC (fold_left String.append (firstn k (rs_chunks r)) "") "").
Proof.
  intros H Hu. unfold download_file in H. rewrite Hu in H. cbn [negb] in H.
  set (p := mkFPath dir (replace_slash (title u))) in *.
  assert (Hw1 : flookup (w_files (match flookup (w_files w) p with
                                  | Some _ => mkWorld (fdelete (w_files w) p) (w_buf w)
                                  | None => w end)) p = None).
  { destruct (flookup (w_files w) p) eqn:E; [apply flookup_fdelete_same|exact E]. }
  destruct net as [|r].
  - injection H as <-. left. exact Hw1.
  - destruct (rs_status_ok r); cbn [negb] in H; [|injection H as <-; left; exact Hw1].
    destruct (contains "jpeg" (lower (rs_content_type r))); cbn [negb] in H;
      [|injection H as <-; left; exact Hw1].
    destruct (rs_fail_after r) as [k|] eqn:Ek; [|discriminate].
    injection H as <-. right. exists r, k. split; [reflexivity|]. split; [exact Ek|].
    unfold write_chunks. cbn [w_files]. apply flookup_fset_same.
Qed.

(* ------------------------------------------------------------------ *)
(** ** Listing results, backup path *)

Lemma fetched_pages_app api a b : fetched_pages api (a ++ b) = fetched_pages api a ++ fetched_pages api b.
Proof. unfold fetched_pages. apply flat_map_app. Qed.

Lemma fetched_pages_batches api bs :
  fetched_pages api (map EApiPages bs) = flat_map (fun b => map page_to_upload (api_pages api b)) bs.
Proof. induction bs as [|b bs IH]; [reflexivity|]. cbn. now rewrite <- IH. Qed.

Lemma list_uploads_loop_results api fuel : forall params seen results,
  match snd (list_uploads_loop api fuel params seen results) with
  | Some (res, _) => res = results ++ fetched_pages api (fst (list_uploads_loop api fuel params seen results))
  | None => True
  end.
Proof.
  induction fuel as [|f IH]; intros params seen results; [exact I|].
  cbn [list_uploads_loop]. rewrite fst_bind, snd_bind. cbn [fst snd emit].
  destruct (api_log api params) as [data|].
  - rewrite fetch_batches_eq, fst_bind, snd_bind. cbn [fst snd].
    destruct (lr_continue data) as [c|].
    + match goal with
      | |- context [list_uploads_loop api f ?p ?s ?r] =>
          specialize (IH p s r); destruct (list_uploads_loop api f p s r) as [tr o]
      end.
      cbn [fst snd] in *. destruct o as [[res c']|]; [|exact I].
      rewrite IH, !fetched_pages_app, fetched_pages_batches.
      change (fetched_pages api [EApiLog params]) with (@nil UploadInfo).
      now rewrite app_nil_l, app_assoc.
    + cbn [fst snd ret]. rewrite !app_nil_r, fetched_pages_app, fetched_pages_batches.
      change (fetched_pages api [EApiLog params]) with (@nil UploadInfo).
      now rewrite app_nil_l.
  - cbn. now rewrite app_nil_r.
Qed.

Lemma list_cat_loop_results api fuel : forall md queue cur seen results,
  match snd (list_cat_loop api fuel md queue cur seen results) with
  | Some res => res = results ++ fetched_pages api (fst (list_cat_loop api fuel md queue cur seen results))
  | None => True
  end.
Proof.
  induction fuel as [|f IH]; intros md queue cur seen results; [exact I|].
  cbn [list_cat_loop]. destruct cur as [[[cat depth] tok]|].
  - rewrite fst_bind, snd_bind. cbn [fst snd emit].
    destruct (api_cat api (cat_params cat tok)) as [data|].
    + destruct (split_members depth md (cr_members data) seen [] []) as [[sc ts] seen'].
      rewrite fetch_batches_eq, fst_bind, snd_bind. cbn [fst snd].
      destruct (cr_continue data) as [c|];
      match goal with
      | |- context [list_cat_loop api f ?a ?b ?c ?d ?e] =>
          specialize (IH a b c d e); destruct (list_cat_loop api f a b c d e) as [tr o]
      end;
      cbn [fst snd] in *; (destruct o as [res|]; [|exact I]);
      rewrite IH, !fetched_pages_app, fetched_pages_batches;
      change (fetched_pages api [EApiCat (cat_params cat tok)]) with (@nil UploadInfo);
      now rewrite app_nil_l, app_assoc.
    + match goal with
      | |- context [list_cat_loop api f ?a ?b ?c ?d ?e] =>
          specialize (IH a b c d e); destruct (list_cat_loop api f a b c d e) as [tr o]
      end.
      cbn [fst snd] in *. destruct o as [res|]; [|exact I]. rewrite IH, fetched_pages_app.
      change (fetched_pages api [EApiCat (cat_params cat tok)]) with (@nil UploadInfo).
      now rewrite app_nil_l.
  - destruct queue as [|[cat depth] queue'].
    + cbn. now rewrite app_nil_r.
    + apply IH.
Qed.

Lemma append_length_neq (s t : string) : t <> "" -> (s ++ t)%string <> s.
Proof.
  intros Ht. induction s as [|a s IH]; cbn; [exact Ht|].
  intros H. injection H as H. exact (IH H).
Qed.

Lemma corrupt_backup_neq (path : FPath) (ts : string) : path_eqb path (corrupt_backup path ts) = false.
Proof.
  apply path_eqb_neq. destruct path as [d n]. unfold corrupt_backup. cbn. intros H.
  injection H as H. symmetry in H. revert H. apply append_length_neq. discriminate.
Qed.

(* ================================================================== *)
(** * Further properties of the code *)

(* ------------------------------------------------------------------ *)
(** ** [process_needs_exif] *)

(** X1. When the processing order is a shuffle of the queue, every upload
    the processor issues happens with [--upload] on, and names a queued
    image that has page coordinates, no EXIF GPS and coordinates that
    [write_exif] accepts. *)
Theorem process_needs_exif_uploads_queued max up env st count images clock0 :
  Permutation images (needs_exif st) ->
  Forall (upload_from up (needs_exif st))
         (fst (process_needs_exif max up env st count images clock0)).
Proof.
  intros Hp. unfold process_needs_exif.
  eapply Forall_impl; [|apply process_loop_events].
  intros ev. apply upload_from_incl. intros u Hu. eapply Permutation_in; eassumption.
Qed.

Lemma process_needs_exif_uploads_queued_witness :
  Permutation five_queued (needs_exif st_five) /\
  Forall (upload_from true (needs_exif st_five))
         (fst (process_needs_exif 30 true env_all_ok st_five 19 five_queued 0)).
Proof.
  split; [apply Permutation_refl|].
  apply (process_needs_exif_uploads_queued 30 true env_all_ok st_five 19 five_queued 0).
  apply Permutation_refl.
Defined.

(** X2. With a positive [count], a run that returns never counts more
    successful updates than [count], and its [edits_count] never goes
    below zero. *)
Theorem process_needs_exif_count_bound max up env st count images clock0 :
  (1 <= count)%Z ->
  match snd (process_needs_exif max up env st count images clock0) with
  | Some o => (0 <= ps_edits_count (outcome_state o))%Z /\
              (Z.of_nat (ps_updated (outcome_state o)) <= count)%Z
  | None => True
  end.
Proof.
  intros Hc. unfold process_needs_exif.
  pose proof (process_loop_edits_pos max up env images 1 (mkPState st 0 0 0 0 count [] clock0) Hc)
    as Hp.
  pose proof (process_loop_budget max up env images 1 (mkPState st 0 0 0 0 count [] clock0)) as Hb.
  destruct (snd (process_loop max up env 1 images (mkPState st 0 0 0 0 count [] clock0)))
    as [o|]; [|exact I].
  specialize (Hb o eq_refl). unfold budget in Hb.
  destruct o as [p|p]; cbn in Hp, Hb |- *; lia.
Qed.

Lemma process_needs_exif_count_bound_witness :
  (1 <= 19)%Z /\
  match snd (process_needs_exif 30 true env_all_ok st_five 19 five_queued 0) with
  | Some o => (0 <= ps_edits_count (outcome_state o))%Z /\
              (Z.of_nat (ps_updated (outcome_state o)) <= 19)%Z
  | None => True
  end.
Proof.
  split; [lia|].
  apply (process_needs_exif_count_bound 30 true env_all_ok st_five 19 five_queued 0). lia.
Defined.

(** X3. With a negative [count] the [edits_count == 0] test never stops
    the loop: a run that finishes normally has counted every image of
    the order (as updated, skipped or failed). *)
Theorem process_needs_exif_negative_count max up env st count images clock0 :
  (count < 0)%Z ->
  match snd (process_needs_exif max up env st count images clock0) with
  | Some (Finished p) => (length images <= counters p)%nat
  | _ => True
  end.
Proof.
  intros Hc. unfold process_needs_exif.
  pose proof (process_loop_negative max up env images 1 (mkPState st 0 0 0 0 count [] clock0) Hc)
    as H.
  destruct (snd (process_loop max up env 1 images (mkPState st 0 0 0 0 count [] clock0)))
    as [[p|p]|]; [|exact I|exact I].
  unfold counters in H |- *. cbn [ps_updated ps_skipped_has_gps ps_skipped_no_gps ps_errors] in H.
  lia.
Qed.

Lemma process_needs_exif_negative_count_witness :
  (-1 < 0)%Z /\
  match snd (process_needs_exif 30 true env_all_ok st_five (-1) five_queued 0) with
  | Some (Finished p) => (length five_queued <= counters p)%nat
  | _ => True
  end.
Proof.
  split; [lia|].
  apply (process_needs_exif_negative_count 30 true env_all_ok st_five (-1) five_queued 0). lia.
Defined.

(** X4. The processor only removes entries from [state.needs_exif]: the
    queue it leaves is the initial queue with some entries dropped, in
    the same order. *)
Theorem process_needs_exif_queue_shrinks max up env st count images clock0 :
  match snd (process_needs_exif max up env st count images clock0) with
  | Some o => subseq (needs_exif (ps_state (outcome_state o))) (needs_exif st)
  | None => True
  end.
Proof.
  unfold process_needs_exif.
  exact (process_loop_subseq max up env images 1 (mkPState st 0 0 0 0 count [] clock0)).
Qed.



(** X6. [rate_limit_sleep] raises [IndexError] ([edit_timestamps[0]] of
    an empty list) exactly when [max_edits_per_min <= 0] and no timestamp
    lies within the last 60 s. *)
Theorem rate_limit_sleep_raises_iff max j ps :
  snd (rate_limit_sleep max j ps) = Some None <->
  (max <= 0)%Z /\ filter (fun t => ps_clock ps - t <? 60000)%Z (ps_timestamps ps) = [].
Proof.
  split.
  - intros H. destruct (rate_limit_sleep_shape max j ps) as [(_ & Hle & He)|(p & Hp & _)].
    + split; [|exact He]. rewrite He in Hle. cbn in Hle. apply Z.leb_le in Hle. lia.
    + congruence.
  - intros [Hm He]. unfold rate_limit_sleep. cbv zeta. rewrite He.
    replace (max <=? Z.of_nat (length (@nil Z)))%Z with true by (symmetry; apply Z.leb_le; cbn; lia).
    reflexivity.
Qed.

(* ------------------------------------------------------------------ *)
(** ** [list_uploads] and [list_category_files] *)

(** X7. [list_uploads] asks [_fetch_pages_batch] for batches of 1 to 50
    titles, never for a title of [seen_titles], and the continuation it
    returns is always [None]: it follows the log to its end itself. *)
Theorem list_uploads_batches api fuel username cont seen :
  let r := list_uploads api fuel username cont seen in
  Forall batch_ok (fst r) /\ Forall (fun t => ~ In t seen) (requested_titles (fst r)) /\
  match snd r with Some (_, c) => c = None | None => True end.
Proof.
  cbv zeta. unfold list_uploads.
  match goal with
  | |- context [list_uploads_loop _ _ ?p _ _] =>
      pose proof (list_uploads_loop_inv api fuel p seen []) as H
  end.
  cbv zeta in H. destruct H as (_ & H1 & H2 & H3). auto.
Qed.

(** X8. [list_category_files] asks for batches of 1 to 50 titles, never
    for a title of [seen_titles], and never for the same title twice in
    one call. *)
Theorem list_category_files_batches api fuel category md seen :
  let tr := fst (list_category_files api fuel category md seen) in
  Forall batch_ok tr /\ Forall (fun t => ~ In t seen) (requested_titles tr) /\
  NoDup (requested_titles tr).
Proof.
  cbv zeta. unfold list_category_files.
  pose proof (list_cat_loop_inv api fuel md [(category, 0%Z)] None seen []) as H.
  cbv zeta in H. tauto.
Qed.

(** X9. With [max_depth <= 0], [list_category_files] requests the member
    pages of the given category only: no subcategory is descended. *)
Theorem list_category_files_depth0 api fuel category md seen :
  (md <= 0)%Z ->
  Forall (cat_request_in [category]) (fst (list_category_files api fuel category md seen)).
Proof.
  intros Hm. unfold list_category_files. apply list_cat_loop_root; [exact Hm| |exact I].
  constructor; [split; [reflexivity|cbn; lia]|constructor].
Qed.

Lemma list_category_files_depth0_witness :
  (0 <= 0)%Z /\
  Forall (cat_request_in ["Maps"]) (fst (list_category_files api_two_pages 3 "Maps" 0 [])).
Proof.
  split; [lia|]. apply (list_category_files_depth0 api_two_pages 3 "Maps" 0 []). lia.
Defined.

(** X10. [list_uploads] and [list_category_files] return exactly the
    uploads built from the answers to their batch requests, in request
    order, with nothing filtered out. *)
Theorem listing_returns_fetched_pages api fuel username cont seen category md :
  match snd (list_uploads api fuel username cont seen) with
  | Some (res, _) => res = fetched_pages api (fst (list_uploads api fuel username cont seen))
  | None => True
  end /\
  match snd (list_category_files api fuel category md seen) with
  | Some res => res = fetched_pages api (fst (list_category_files api fuel category md seen))
  | None => True
  end.
Proof.
  split.
  - unfold list_uploads. exact (list_uploads_loop_results api fuel _ seen []).
  - unfold list_category_files. exact (list_cat_loop_results api fuel md _ None seen []).
Qed.

(* ------------------------------------------------------------------ *)
(** ** [scan_user_uploads] *)

(** X11. A scan that returns either returns the checkpoint at once, with
    no request and no continuation to follow, or saves the state exactly
    once, as its last action, after listing requests only and with
    [scan_continue] set to [None]. *)
Theorem scan_user_uploads_single_save api tu cat md af fuel state st :
  snd (scan_user_uploads api tu cat md af fuel state) = Some st ->
  (fst (scan_user_uploads api tu cat md af fuel state) = [] /\
   cont_truthy (scan_continue st) = false) \/
  (exists pre, fst (scan_user_uploads api tu cat md af fuel state) = pre ++ [ESave st] /\
               Forall listing_event pre /\ scan_continue st = None).
Proof.
  intros H.
  destruct (scan_user_uploads_shape api tu cat md af fuel state st H)
    as (pre & ups & Hpre & [(E & _ & Hc)|(E & Hc)] & _ & _).
  - left. split; assumption.
  - right. exists pre. split; [exact E|split; assumption].
Qed.

Lemma scan_user_uploads_single_save_witness :
  snd (scan_user_uploads api_two_pages "Wilfredor" None 1 (Some "Wilfredor") 10 empty_state)
    = Some st_two_scanned /\
  ((fst (scan_user_uploads api_two_pages "Wilfredor" None 1 (Some "Wilfredor") 10 empty_state)
      = [] /\ cont_truthy (scan_continue st_two_scanned) = false) \/
   (exists pre,
      fst (scan_user_uploads api_two_pages "Wilfredor" None 1 (Some "Wilfredor") 10 empty_state)
        = pre ++ [ESave st_two_scanned] /\
      Forall listing_event pre /\ scan_continue st_two_scanned = None)).
Proof.
  split; [vm_compute; reflexivity|].
  apply (scan_user_uploads_single_save api_two_pages "Wilfredor" None 1 (Some "Wilfredor") 10
                                       empty_state st_two_scanned).
  vm_compute; reflexivity.
Defined.



(* ------------------------------------------------------------------ *)
(** ** [save_state] and [load_state] *)



(** X14. A [load_state] after a completed [save_state] returns the saved
    state, leaves the directory as it is and logs no warning, provided
    [json.loads] reads the written text back as [state.to_dict()]. *)
Theorem save_state_then_load json_loads encode w cands path state ts tmp :
  choose_tmp (w_files w) (p_dir path) cands = Some tmp ->
  flookup (w_files w) path <> None \/ ~ In (p_name path) cands ->
  (exists text, utf8_decode (bytes_of (serialized encode state)) = Some text /\
                json_loads text = Some (ScanState_to_dict state)) ->
  let w' := run_ops w (save_state_ops encode w cands path state None) in
  load_state json_loads w' path ts = Loaded state w' false.
Proof.
  intros Hch Hdest Hjs. exact (save_then_load json_loads encode w cands path state ts tmp Hch Hdest Hjs).
Qed.

Lemma save_state_then_load_witness :
  choose_tmp (w_files world_old) (p_dir state_path) ["tmp1"] = Some (mkFPath "." "tmp1") /\
  (flookup (w_files world_old) state_path <> None \/ ~ In (p_name state_path) ["tmp1"]) /\
  (exists text, utf8_decode (bytes_of (serialized dump_two_chunks st_five)) = Some text /\
                loads_st_five text = Some (ScanState_to_dict st_five)) /\
  let w' := run_ops world_old (save_state_ops dump_two_chunks world_old ["tmp1"] state_path
                                              st_five None) in
  load_state loads_st_five w' state_path "20240101000000" = Loaded st_five w' false.
Proof.
  assert (Hch : choose_tmp (w_files world_old) (p_dir state_path) ["tmp1"]
                = Some (mkFPath "." "tmp1")) by (vm_compute; reflexivity).
  assert (Hd : flookup (w_files world_old) state_path <> None \/ ~ In (p_name state_path) ["tmp1"]).
  { left. intros H. vm_compute in H. discriminate H. }
  assert (Hj : exists text, utf8_decode (bytes_of (serialized dump_two_chunks st_five)) = Some text /\
                            loads_st_five text = Some (ScanState_to_dict st_five)).
  { exists [123%Z; 125%Z]. split; vm_compute; reflexivity. }
  split; [exact Hch|]. split; [exact Hd|]. split; [exact Hj|].
  exact (save_state_then_load loads_st_five dump_two_chunks world_old ["tmp1"] state_path st_five
                              "20240101000000" _ Hch Hd Hj).
Defined.

(** X15. When [json.dump], [flush] or [fsync] raises inside [save_state],
    the temporary file ([delete=False]) stays in the directory and the
    entry at [path] is unchanged. *)
Theorem save_state_failure_leaves_tmp encode w cands path state tmp k :
  choose_tmp (w_files w) (p_dir path) cands = Some tmp ->
  flookup (w_files w) path <> None \/ ~ In (p_name path) cands ->
  (k <= length (encode state) + 2)%nat ->
  let w' := run_ops w (save_state_ops encode w cands path state (Some k)) in
  flookup (w_files w') tmp <> None /\ flookup (w_files w') path = flookup (w_files w) path.
Proof.
  intros Hch Hdest Hk.
  exact (save_state_failure_keeps_tmp encode w cands path state tmp k Hch Hdest Hk).
Qed.

Lemma save_state_failure_leaves_tmp_witness :
  choose_tmp (w_files world_old) (p_dir state_path) ["tmp1"] = Some (mkFPath "." "tmp1") /\
  (flookup (w_files world_old) state_path <> None \/ ~ In (p_name state_path) ["tmp1"]) /\
  (1 <= length (dump_two_chunks st_five) + 2)%nat /\
  let w' := run_ops world_old (save_state_ops dump_two_chunks world_old ["tmp1"] state_path
                                              st_five (Some 1%nat)) in
  flookup (w_files w') (mkFPath "." "tmp1") <> None /\
  flookup (w_files w') state_path = flookup (w_files world_old) state_path.
Proof.
  assert (Hch : choose_tmp (w_files world_old) (p_dir state_path) ["tmp1"]
                = Some (mkFPath "." "tmp1")) by (vm_compute; reflexivity).
  assert (Hd : flookup (w_files world_old) state_path <> None \/ ~ In (p_name state_path) ["tmp1"]).
  { left. intros H. vm_compute in H. discriminate H. }
  assert (Hk : (1 <= length (dump_two_chunks st_five) + 2)%nat) by (cbn; lia).
  split; [exact Hch|]. split; [exact Hd|]. split; [exact Hk|].
  exact (save_state_failure_leaves_tmp dump_two_chunks world_old ["tmp1"] state_path st_five _ 1
                                       Hch Hd Hk).
Defined.

(** X16. [load_state] changes the directory only when the file decodes but
    is not JSON: then a warning is logged, the empty state is returned and
    the file is moved to [<name>.corrupt.<ts>.bak]. In every other case the
    directory is left as it was and no warning is logged. *)
Theorem load_state_effects (json_loads : list Z -> option pyval) w path ts :
  match load_state json_loads w path ts with
  | Loaded s w' warned =>
      (warned = false /\ w' = w) \/
      (warned = true /\ s = empty_state /\
       exists f, flookup (w_files w) path = Some f /\
                 flookup (w_files w') path = None /\
                 flookup (w_files w') (corrupt_backup path ts) = Some f)
  | LoadRaised _ w' => w' = w
  | LoadIllTyped w' => w' = w
  end.
Proof.
  unfold load_state. destruct (flookup (w_files w) path) as [f|] eqn:Ef;
    [|left; split; reflexivity].
  destruct (utf8_decode _) as [text|]; [|reflexivity].
  destruct (json_loads text) as [v|].
  - destruct (truthy v); [|left; split; reflexivity].
    destruct v; try reflexivity.
    destruct (ScanState_from_dict _); [left; split; reflexivity|reflexivity].
  - right. split; [reflexivity|]. split; [reflexivity|]. exists f. split; [reflexivity|].
    unfold rename. destruct w as [fs b]. cbn [w_files] in Ef |- *.
    rewrite (run_op_replace _ _ _ _ _ Ef). cbn [w_files]. split.
    + rewrite flookup_fset_other by exact (corrupt_backup_neq path ts).
      apply flookup_fdelete_same.
    + apply flookup_fset_same.
Qed.

(* ------------------------------------------------------------------ *)
(** ** [set_gps_location], [_get_lat_lon_gps], [_has_metadata_gps],
       [_fetch_pages_batch], [download_file] *)

(** X17. [set_gps_location] always writes the references ["N"] and
    ["E"]: [decimal_to_dms] returns the degrees of [abs(deg)], so the
    sign tests never fail, and the coordinates [(-lat, -lng)] give the
    same GPS block as [(lat, lng)]. *)
Theorem set_gps_location_hemisphere (lat lng : float) (g : GpsIfd) :
  gps_ifd lat lng = Some g ->
  gps_latitude_ref g = "N" /\ gps_longitude_ref g = "E" /\
  gps_ifd (- lat)%float (- lng)%float = Some g.
Proof. intros H. exact (gps_ifd_hemisphere lat lng g H). Qed.

Lemma set_gps_location_hemisphere_witness :
  gps_ifd (-33.5)%float (-70.25)%float = Some ifd_south_west /\
  gps_latitude_ref ifd_south_west = "N" /\ gps_longitude_ref ifd_south_west = "E" /\
  gps_ifd (- (-33.5))%float (- (-70.25))%float = Some ifd_south_west.
Proof.
  assert (H : gps_ifd (-33.5)%float (-70.25)%float = Some ifd_south_west)
    by (vm_compute; reflexivity).
  split; [exact H|]. exact (set_gps_location_hemisphere _ _ _ H).
Defined.

(** X18. [_get_lat_lon_gps] raises [KeyError] exactly when some entry
    named [gpsname] has no ["value"]; otherwise it returns [float] of the
    value of the first such entry, or [None] when there is none or the
    value does not convert. *)
Theorem get_lat_lon_gps_behaviour (f : string -> option float) (name : string) (l : list pyval) :
  (get_lat_lon_gps f name l = None <->
   exists v, In v l /\ gps_entry name v = true /\ entry_value v = None) /\
  (get_lat_lon_gps f name l = None \/
   get_lat_lon_gps f name l =
     Some (match find (gps_entry name) l with
           | Some v => match entry_value v with Some x => py_float f x | None => None end
           | None => None
           end)).
Proof. exact (get_lat_lon_gps_spec f name l). Qed.

(** X19. [_has_metadata_gps] returns [True] exactly when, for both
    ["GPSLatitude"] and ["GPSLongitude"], every entry of that name has a
    ["value"] and the first one converts with [float]. *)
Theorem has_metadata_gps_true (f : string -> option float) (block : list pyval) :
  has_metadata_gps f block = Some true <->
  forall name, name = "GPSLatitude" \/ name = "GPSLongitude" ->
    (forall v, In v block -> gps_entry name v = true -> entry_value v <> None) /\
    exists v x y, find (gps_entry name) block = Some v /\ entry_value v = Some x /\
                  py_float f x = Some y.
Proof.
  unfold has_metadata_gps. split.
  - intros H. destruct block as [|b0 bs]; [discriminate|].
    destruct (get_lat_lon_gps f "GPSLatitude" (b0 :: bs)) as [[la|]|] eqn:Ela; try discriminate.
    destruct (get_lat_lon_gps f "GPSLongitude" (b0 :: bs)) as [[lo|]|] eqn:Elo; try discriminate.
    intros name [->| ->]; apply get_lat_lon_gps_found; eauto.
  - intros H.
    destruct (proj2 (get_lat_lon_gps_found f _ block) (H _ (or_introl eq_refl))) as [la Hla].
    destruct (proj2 (get_lat_lon_gps_found f _ block) (H _ (or_intror eq_refl))) as [lo Hlo].
    destruct block as [|b0 bs].
    + destruct (H _ (or_introl eq_refl)) as [_ (v & _ & _ & Hf & _)]. discriminate Hf.
    + rewrite Hla, Hlo. reflexivity.
Qed.

(** X20. A page whose [coordinates] list is empty gives an upload with
    [has_coords] true but no latitude or longitude: it is routed to
    [needs_exif] when it passes the filters and has no EXIF GPS, although
    [write_exif] rejects its coordinates. *)
Theorem page_to_upload_empty_coordinates (p : Page) (af : option string) :
  pg_coordinates p = Some [] ->
  has_coords (page_to_upload p) = true /\ lat (page_to_upload p) = None /\
  lon (page_to_upload p) = None /\
  valid_coordinates (lat (page_to_upload p)) (lon (page_to_upload p)) = false /\
  routes_to_exif af (page_to_upload p) = passes_filters af (page_to_upload p) && negb (pg_metadata_gps p).
Proof.
  intros H. unfold routes_to_exif, page_to_upload. rewrite H.
  cbn [has_coords lat lon has_exif_gps valid_coordinates].
  split; [reflexivity|]. split; [reflexivity|]. split; [reflexivity|]. split; [reflexivity|].
  now rewrite andb_true_r.
Qed.

Lemma page_to_upload_empty_coordinates_witness :
  pg_coordinates page_empty_coords = Some [] /\
  has_coords (page_to_upload page_empty_coords) = true /\
  lat (page_to_upload page_empty_coords) = None /\ lon (page_to_upload page_empty_coords) = None /\
  valid_coordinates (lat (page_to_upload page_empty_coords))
                    (lon (page_to_upload page_empty_coords)) = false /\
  routes_to_exif None (page_to_upload page_empty_coords)
    = passes_filters None (page_to_upload page_empty_coords)
      && negb (pg_metadata_gps page_empty_coords).
Proof.
  split; [reflexivity|]. apply (page_to_upload_empty_coordinates page_empty_coords None).
  reflexivity.
Defined.

(** X21. When [download_file] of an upload with a URL returns [None], the
    local path holds no file, or holds the chunks received before the
    stream raised a [RequestException]: a partial download is left on
    disk. *)
Theorem download_file_none_leaves dir w u net w' :
  download_file dir w u net = (None, w') ->
  opt_str_truthy (url u) = true ->
  flookup (w_files w') (mkFPath dir (replace_slash (title u))) = None \/
  exists r k, net = NetResp r /\ rs_fail_after r = Some k /\
    flookup (w_files w') (mkFPath dir (replace_slash (title u)))
      = Some (mkFileC (fold_left String.append (firstn k (rs_chunks r)) "") "").
Proof. intros H Hu. exact (download_file_none dir w u net w' H Hu). Qed.

Lemma download_file_none_leaves_witness :
  download_file "dl" (mkWorld [] "") upload_X resp_fail_after_one
    = (None, mkWorld [(mkFPath "dl" "X.jpg", mkFileC "ab" "")] "") /\
  opt_str_truthy (url upload_X) = true /\
  (flookup (w_files (mkWorld [(mkFPath "dl" "X.jpg", mkFileC "ab" "")] ""))
           (mkFPath "dl" (replace_slash (title upload_X))) = None \/
   exists r k, resp_fail_after_one = NetResp r /\ rs_fail_after r = Some k /\
     flookup (w_files (mkWorld [(mkFPath "dl" "X.jpg", mkFileC "ab" "")] ""))
             (mkFPath "dl" (replace_slash (title upload_X)))
       = Some (mkFileC (fold_left String.append (firstn k (rs_chunks r)) "") "")).
Proof.
  assert (H : download_file "dl" (mkWorld [] "") upload_X resp_fail_after_one
              = (None, mkWorld [(mkFPath "dl" "X.jpg", mkFileC "ab" "")] "")) by (vm_compute; reflexivity).
  assert (Hu : opt_str_truthy (url upload_X) = true) by reflexivity.
  split; [exact H|]. split; [exact Hu|].
  exact (download_file_none_leaves "dl" (mkWorld [] "") upload_X resp_fail_after_one _ H Hu).
Defined.

